(** * Breakout rooms: HTTP service layer and client store

    A shallow embedding of [src/services/breakoutRoomsService.ts] and of the
    Pinia store [breakoutRooms] (state, getters, actions), followed by the
    properties of the store that the specification states.

    Modelling conventions.
    - A JavaScript object used as a record keyed by conversation tokens
      ([Record<string, ...>]) is a finite map [gmap string _].  Own-key
      enumeration ([for ... in], [Object.values], [Object.entries]) is the
      enumeration of the map; no statement below depends on its order.
    - The keys under which the store writes (parent tokens, room tokens) are
      conversation tokens.  Where the code reads an object at a string that
      comes from elsewhere (the token handed to [getParentRoomToken], the
      [roomToken] of a participant), the read goes through the prototype chain
      as in JavaScript: what the object does not own it may inherit from
      [Object.prototype].
    - Everything the store does to the outside (HTTP requests, dispatches to
      the general Vuex store, event-bus emissions, console output, toasts) is
      appended to a trace, in program order.
    - An [async] action is a computation in an exception-and-state monad;
      [await] is sequencing, a rejected promise is a thrown error.  The server
      is an oracle that answers a request from the history of effects so far.
      The HTTP client is the imported axios instance: one call puts its
      request on the wire, and then whatever the client itself sends after it.
    - Code that is imported from outside the repository fragment
      ([generateOcsUrl], the translation function [t], the constant
      [CONVERSATION.OBJECT_TYPE.BREAKOUT_ROOM], what the axios instance
      re-sends) is a field of [Env]. *)

From Stdlib Require Import ZArith Ascii.
From stdpp Require Import gmap strings list fin_maps.

Open Scope string_scope.
Open Scope list_scope.

(** ** Data model ([../types]) *)

(** The fields the code reads, and the remaining JSON members. *)
Module Conversation.
Record t := mk {
  token : string;
  objectType : string;
  objectId : string;
  members : list (string * string)
}.
End Conversation.

(** [BreakoutRoom] is a conversation seen through a type cast
    ([conversation as BreakoutRoom]). *)
Abbreviation BreakoutRoom := Conversation.t.

Module Participant.
Record t := mk {
  roomToken : string;
  members : list (string * string)
}.
End Participant.

(** [Conversation | Conversation[]] *)
Inductive ConversationOrArray :=
| Single (conversation : Conversation.t)
| Array (conversations : list Conversation.t).

(** The value a rejected request carries, or the one the runtime throws. *)
Inductive JsError :=
| NetworkError (message : string)
| HttpError (status : Z) (message : string)
| TypeError (message : string).

(** ** Effects *)

Inductive Method := GET | POST | DELETE.

Inductive JsonValue :=
| JNumber (n : Z)
| JString (s : string)
| JUndefined.

Record Request := {
  method : Method;
  url : string;
  body : option (list (string * JsonValue))
}.

(** Actions of the general store ([store.dispatch (name, payload)]). *)
Inductive StoreAction :=
| patchConversations (conversations : list Conversation.t)
| deleteConversation (token : string)
| patchParticipants (token : string) (newParticipants : list Participant.t)
    (hasUserStatuses : bool)
| showSidebar.

Inductive Effect :=
| Http (request : Request)
| Dispatch (action : StoreAction)
| Emit (event payload : string)
| ConsoleError (error : JsError)
| ShowError (message : string).

(** The server answers a request knowing everything that happened before it.
    There is one oracle per shape of [response.data.ocs.data]. *)
Record Server := {
  conversations : list Effect → Request → JsError + ConversationOrArray;
  conversation : list Effect → Request → JsError + Conversation.t;
  participants : list Effect → Request → JsError + list Participant.t
}.

(** [resends] is what the imported client sends on its own, after the request
    of a call: nothing as a rule, the request again once it has fetched a fresh
    token after a failed CSRF check. *)
Record Env := {
  BREAKOUT_ROOM : string;
  generateOcsUrl : string → string → string;
  t : string → string → string;
  server : Server;
  resends : list Effect → Request → list Request
}.

(** ** State and the monad of actions *)

(** [type State = { rooms: Record<string, Record<string, BreakoutRoom>> }] *)
Record State := { rooms : gmap string (gmap string Conversation.t) }.

Record World := { store : State; trace : list Effect }.

Inductive Outcome (A : Type) :=
| Returned (a : A)
| Thrown (error : JsError).
Arguments Returned {A} a.
Arguments Thrown {A} error.

Definition M (A : Type) : Type := World → Outcome A * World.

#[global] Instance M_ret : MRet M := λ A a w, (Returned a, w).

#[global] Instance M_bind : MBind M := λ A B f m w,
  match m w with
  | (Returned a, w') => f a w'
  | (Thrown e, w') => (Thrown e, w')
  end.

(** [try { body } catch (error) { handler }] *)
Definition try_catch {A} (body : M A) (handler : JsError → M A) : M A := λ w,
  match body w with
  | (Returned a, w') => (Returned a, w')
  | (Thrown e, w') => handler e w'
  end.

Definition perform (e : Effect) : M unit := λ w,
  (Returned tt, {| store := store w; trace := (trace w ++ [e])%list |}).

Definition get_rooms : M (gmap string (gmap string Conversation.t)) := λ w,
  (Returned (rooms (store w)), w).

Definition set_rooms (r : gmap string (gmap string Conversation.t)) : M unit := λ w,
  (Returned tt, {| store := {| rooms := r |}; trace := trace w |}).

(** [array.forEach (f)] *)
Fixpoint forEach {A} (l : list A) (f : A → M unit) : M unit :=
  match l with
  | [] => mret tt
  | x :: l' => f x ;; forEach l' f
  end.

(** A thrown value or a result, as a computation. *)
Definition lift {A} (r : JsError + A) : M A := λ w,
  match r with
  | inl e => (Thrown e, w)
  | inr a => (Returned a, w)
  end.

(** One call to the client: its request goes on the wire, then what the
    client sends after it, and the oracle decides what the caller gets. *)
Definition send {A} (again : list Effect → Request → list Request)
    (oracle : list Effect → Request → JsError + A) (r : Request) : M A := λ w,
  let w' := {| store := store w;
               trace := (trace w ++ Http r :: (Http <$> again (trace w) r))%list |} in
  match oracle (trace w) r with
  | inl e => (Thrown e, w')
  | inr a => (Returned a, w')
  end.

Definition dispatch (a : StoreAction) : M unit := perform (Dispatch a).
Definition emit (event payload : string) : M unit := perform (Emit event payload).
Definition console_error (error : JsError) : M unit := perform (ConsoleError error).
Definition showError (message : string) : M unit := perform (ShowError message).

(** ** [src/services/breakoutRoomsService.ts] *)

Module Service.
Section WithEnv.
Variable env : Env.

Definition axios_post {A} (oracle : Server → list Effect → Request → JsError + A)
    (url : string) (data : option (list (string * JsonValue))) : M A :=
  send (resends env) (oracle (server env)) {| method := POST; url := url; body := data |}.

Definition axios_get {A} (oracle : Server → list Effect → Request → JsError + A)
    (url : string) : M A :=
  send (resends env) (oracle (server env)) {| method := GET; url := url; body := None |}.

Definition axios_delete {A} (oracle : Server → list Effect → Request → JsError + A)
    (url : string) : M A :=
  send (resends env) (oracle (server env)) {| method := DELETE; url := url; body := None |}.

Definition optional (attendeeMap : option string) : JsonValue :=
  match attendeeMap with Some s => JString s | None => JUndefined end.

(** [mode] is one of the numbers 0 to 3 and [amount] a number; both are only
    passed on.  An absent [attendeeMap] is [undefined] in the body. *)
Definition configureBreakoutRooms (token : string) (mode : Z) (amount : Z)
    (attendeeMap : option string) : M ConversationOrArray :=
  axios_post conversations
    (generateOcsUrl env "/apps/spreed/api/v1/breakout-rooms/{token}" token)
    (Some [("mode", JNumber mode); ("amount", JNumber amount);
           ("attendeeMap", optional attendeeMap)]).

Definition reorganizeAttendees (token : string) (attendeeMap : string) : M ConversationOrArray :=
  axios_post conversations
    (generateOcsUrl env "/apps/spreed/api/v1/breakout-rooms/{token}/attendees" token)
    (Some [("attendeeMap", JString attendeeMap)]).

Definition deleteBreakoutRooms (token : string) : M ConversationOrArray :=
  axios_delete conversations
    (generateOcsUrl env "/apps/spreed/api/v1/breakout-rooms/{token}" token).

Definition getBreakoutRooms (token : string) : M ConversationOrArray :=
  axios_get conversations
    (generateOcsUrl env "/apps/spreed/api/v4/room/{token}/breakout-rooms" token).

Definition startBreakoutRooms (token : string) : M ConversationOrArray :=
  axios_post conversations
    (generateOcsUrl env "/apps/spreed/api/v1/breakout-rooms/{token}/rooms" token) None.

Definition stopBreakoutRooms (token : string) : M ConversationOrArray :=
  axios_delete conversations
    (generateOcsUrl env "/apps/spreed/api/v1/breakout-rooms/{token}/rooms" token).

Definition broadcastMessageToBreakoutRooms (token : string) (message : string)
    : M ConversationOrArray :=
  axios_post conversations
    (generateOcsUrl env "/apps/spreed/api/v1/breakout-rooms/{token}/broadcast" token)
    (Some [("message", JString message)]).

Definition getBreakoutRoomsParticipants (token : string) : M (list Participant.t) :=
  axios_get participants
    (generateOcsUrl env "/apps/spreed/api/v4/room/{token}/breakout-rooms/participants" token).

Definition requestAssistance (token : string) : M Conversation.t :=
  axios_post conversation
    (generateOcsUrl env "/apps/spreed/api/v1/breakout-rooms/{token}/request-assistance" token)
    None.

Definition resetRequestAssistance (token : string) : M Conversation.t :=
  axios_delete conversation
    (generateOcsUrl env "/apps/spreed/api/v1/breakout-rooms/{token}/request-assistance" token).

Definition switchToBreakoutRoom (token : string) (target : string) : M ConversationOrArray :=
  axios_post conversations
    (generateOcsUrl env "/apps/spreed/api/v1/breakout-rooms/{token}/switch" token)
    (Some [("target", JString target)]).
End WithEnv.
End Service.

(** The eleven exported functions as data, to speak about all of them. *)
Module Call.
Inductive t :=
| ConfigureBreakoutRooms (token : string) (mode amount : Z) (attendeeMap : option string)
| ReorganizeAttendees (token attendeeMap : string)
| DeleteBreakoutRooms (token : string)
| GetBreakoutRooms (token : string)
| StartBreakoutRooms (token : string)
| StopBreakoutRooms (token : string)
| BroadcastMessageToBreakoutRooms (token message : string)
| GetBreakoutRoomsParticipants (token : string)
| RequestAssistance (token : string)
| ResetRequestAssistance (token : string)
| SwitchToBreakoutRoom (token target : string).

Definition data (c : t) : Type :=
  match c with
  | GetBreakoutRoomsParticipants _ => list Participant.t
  | RequestAssistance _ | ResetRequestAssistance _ => Conversation.t
  | _ => ConversationOrArray
  end.

Definition run (env : Env) (c : t) : M (data c) :=
  match c with
  | ConfigureBreakoutRooms token mode amount attendeeMap =>
      Service.configureBreakoutRooms env token mode amount attendeeMap
  | ReorganizeAttendees token attendeeMap => Service.reorganizeAttendees env token attendeeMap
  | DeleteBreakoutRooms token => Service.deleteBreakoutRooms env token
  | GetBreakoutRooms token => Service.getBreakoutRooms env token
  | StartBreakoutRooms token => Service.startBreakoutRooms env token
  | StopBreakoutRooms token => Service.stopBreakoutRooms env token
  | BroadcastMessageToBreakoutRooms token message =>
      Service.broadcastMessageToBreakoutRooms env token message
  | GetBreakoutRoomsParticipants token => Service.getBreakoutRoomsParticipants env token
  | RequestAssistance token => Service.requestAssistance env token
  | ResetRequestAssistance token => Service.resetRequestAssistance env token
  | SwitchToBreakoutRoom token target => Service.switchToBreakoutRoom env token target
  end.

Definition token_of (c : t) : string :=
  match c with
  | ConfigureBreakoutRooms token _ _ _ | ReorganizeAttendees token _
  | DeleteBreakoutRooms token | GetBreakoutRooms token | StartBreakoutRooms token
  | StopBreakoutRooms token | BroadcastMessageToBreakoutRooms token _
  | GetBreakoutRoomsParticipants token | RequestAssistance token
  | ResetRequestAssistance token | SwitchToBreakoutRoom token _ => token
  end.

(** The payload fields each function puts in the request body; an attendee
    map that was not given is an undefined member. *)
Definition payload_of (c : t) : option (list (string * JsonValue)) :=
  match c with
  | ConfigureBreakoutRooms _ mode amount (Some attendeeMap) =>
      Some [("mode", JNumber mode); ("amount", JNumber amount);
            ("attendeeMap", JString attendeeMap)]
  | ConfigureBreakoutRooms _ mode amount None =>
      Some [("mode", JNumber mode); ("amount", JNumber amount);
            ("attendeeMap", JUndefined)]
  | ReorganizeAttendees _ attendeeMap => Some [("attendeeMap", JString attendeeMap)]
  | BroadcastMessageToBreakoutRooms _ message => Some [("message", JString message)]
  | SwitchToBreakoutRoom _ target => Some [("target", JString target)]
  | _ => None
  end.

(** The table of REST endpoints of the specification (section 6): method and
    path, the path relative to the versioned API root of the application. *)
Definition endpoint_table (c : t) : Method * string :=
  match c with
  | ConfigureBreakoutRooms _ _ _ _ => (POST, "/breakout-rooms/{token}")
  | ReorganizeAttendees _ _ => (POST, "/breakout-rooms/{token}/attendees")
  | DeleteBreakoutRooms _ => (DELETE, "/breakout-rooms/{token}")
  | GetBreakoutRooms _ => (GET, "/room/{token}/breakout-rooms")
  | StartBreakoutRooms _ => (POST, "/breakout-rooms/{token}/rooms")
  | StopBreakoutRooms _ => (DELETE, "/breakout-rooms/{token}/rooms")
  | BroadcastMessageToBreakoutRooms _ _ => (POST, "/breakout-rooms/{token}/broadcast")
  | GetBreakoutRoomsParticipants _ => (GET, "/room/{token}/breakout-rooms/participants")
  | RequestAssistance _ => (POST, "/breakout-rooms/{token}/request-assistance")
  | ResetRequestAssistance _ => (DELETE, "/breakout-rooms/{token}/request-assistance")
  | SwitchToBreakoutRoom _ _ => (POST, "/breakout-rooms/{token}/switch")
  end.

(** The API root under which the table's path lives: the room endpoints are
    version 4 of the API, the breakout-room endpoints version 1. *)
Definition api_root (c : t) : string :=
  match c with
  | GetBreakoutRooms _ | GetBreakoutRoomsParticipants _ => "/apps/spreed/api/v4"
  | _ => "/apps/spreed/api/v1"
  end.

(** The request the table prescribes for a call, built with the
    environment's [generateOcsUrl]. *)
Definition request (env : Env) (c : t) : Request :=
  {| method := (endpoint_table c).1;
     url := generateOcsUrl env (api_root c ++ (endpoint_table c).2)%string (token_of c);
     body := payload_of c |}.
End Call.

(** ** The store [breakoutRooms] *)

(** Own enumerable keys and values of an object. *)
Definition Object_keys {V} (o : gmap string V) : list string := (map_to_list o).*1.
Definition Object_values {V} (o : gmap string V) : list V := (map_to_list o).*2.
Definition Object_entries {V} (o : gmap string V) : list (string * V) := map_to_list o.

(** The members every object inherits from [Object.prototype]. *)
Definition Object_prototype : list string :=
  ["constructor"; "hasOwnProperty"; "isPrototypeOf"; "propertyIsEnumerable";
   "toLocaleString"; "toString"; "valueOf"; "__proto__";
   "__defineGetter__"; "__defineSetter__"; "__lookupGetter__"; "__lookupSetter__"].

Definition inherited (key : string) : bool := bool_decide (key ∈ Object_prototype).

(** What [o[key]] evaluates to on an object without a prototype of its own:
    the value it owns, else the member it inherits, else [undefined]. *)
Inductive Read (V : Type) :=
| Own (v : V)
| Inherited
| Undefined.
Arguments Own {V} v.
Arguments Inherited {V}.
Arguments Undefined {V}.

Definition read {V} (o : gmap string V) (key : string) : Read V :=
  match o !! key with
  | Some v => Own v
  | None => if inherited key then Inherited else Undefined
  end.

(** [array.reduce (f, acc)] with a callback that may throw. *)
Fixpoint reduce {A B} (f : B → A → JsError + B) (acc : B) (l : list A) : JsError + B :=
  match l with
  | [] => inr acc
  | x :: l' =>
      match f acc x with
      | inl e => inl e
      | inr acc' => reduce f acc' l'
      end
  end.


Module Store.

(** *** State *)

Definition initial : State := {| rooms := ∅ |}.

(** *** Getters *)

(** [Object.values (Object (state.rooms[token]))]; [Object (undefined)] is
    an empty object. *)
Definition breakoutRooms (state : State) (token : string) : list BreakoutRoom :=
  match rooms state !! token with
  | Some o => Object_values o
  | None => []
  end.



(** *** Actions *)

Section WithEnv.
Variable env : Env.

(** [if (!this.rooms[token]) Vue.set (this.rooms, token, {})], then
    [Vue.set (this.rooms[token], breakoutRoom.token, breakoutRoom)]: the second
    assignment updates the object stored under [token], which exists by then,
    in place ([alter]). *)
Definition addBreakoutRoom (token : string) (breakoutRoom : BreakoutRoom) : M unit :=
  r ← get_rooms;
  match r !! token with
  | None => set_rooms (<[token := ∅]> r)
  | Some _ => mret tt
  end ;;
  r ← get_rooms;
  set_rooms (alter (insert (Conversation.token breakoutRoom) breakoutRoom) token r).

Definition processConversations (token : string) (conversationOrArray : ConversationOrArray)
    : M unit :=
  let conversations :=
    match conversationOrArray with
    | Array conversations => conversations
    | Single conversation => [conversation]
    end in
  forEach conversations (λ conversation,
    if String.eqb (Conversation.objectType conversation) (BREAKOUT_ROOM env)
    then addBreakoutRoom token conversation
    else mret tt) ;;
  dispatch (patchConversations conversations).

(** [for (const roomToken in this.rooms[token])] runs no iteration when
    [this.rooms[token]] is undefined. *)
Definition purgeBreakoutRoomsStore (token : string) : M unit :=
  r ← get_rooms;
  forEach (match r !! token with Some o => Object_keys o | None => [] end)
    (λ roomToken, dispatch (deleteConversation roomToken)) ;;
  r ← get_rooms;
  set_rooms (delete token r).

(** The callback of [reduce] in [fetchBreakoutRoomsParticipants].  The
    accumulator starts as [{}]: [!acc[key]] holds only where the read is
    [undefined], and [acc[key].push] is a function only on an array the
    accumulator owns; on an inherited member the call throws. *)
Definition splitParticipant (acc : gmap string (list Participant.t))
    (participant : Participant.t) : JsError + gmap string (list Participant.t) :=
  let acc :=
    match read acc (Participant.roomToken participant) with
    | Undefined => <[Participant.roomToken participant := []]> acc
    | Own _ | Inherited => acc
    end in
  match read acc (Participant.roomToken participant) with
  | Own participants =>
      inr (<[Participant.roomToken participant := (participants ++ [participant])%list]> acc)
  | Inherited | Undefined =>
      inl (TypeError "acc[participant.roomToken].push is not a function")
  end.

Definition fetchBreakoutRoomsParticipants (token : string) : M unit :=
  try_catch
    (response ← Service.getBreakoutRoomsParticipants env token;
     splittedParticipants ← lift (reduce splitParticipant ∅ response);
     forEach (Object_entries splittedParticipants) (λ '(token, newParticipants),
       dispatch (patchParticipants token newParticipants false)))
    (λ error, console_error error).

Definition configureBreakoutRooms (token : string) (mode amount : Z)
    (attendeeMap : option string) : M unit :=
  try_catch
    (response ← Service.configureBreakoutRooms env token mode amount attendeeMap;
     processConversations token response ;;
     fetchBreakoutRoomsParticipants token ;;
     emit "spreed:select-active-sidebar-tab" "breakout-rooms" ;;
     dispatch showSidebar)
    (λ error,
       console_error error ;;
       showError (t env "spreed" "An error occurred while creating breakout rooms")).

Definition reorganizeAttendees (token attendeeMap : string) : M unit :=
  try_catch
    (response ← Service.reorganizeAttendees env token attendeeMap;
     processConversations token response ;;
     fetchBreakoutRoomsParticipants token)
    (λ error,
       console_error error ;;
       showError (t env "spreed" "An error occurred while re-ordering the attendees")).

Definition deleteBreakoutRooms (token : string) : M unit :=
  try_catch
    (response ← Service.deleteBreakoutRooms env token;
     processConversations token response ;;
     purgeBreakoutRoomsStore token)
    (λ error,
       console_error error ;;
       showError (t env "spreed" "An error occurred while deleting breakout rooms")).

Definition getBreakoutRooms (token : string) : M unit :=
  try_catch
    (response ← Service.getBreakoutRooms env token;
     processConversations token response)
    (λ error, console_error error).

Definition startBreakoutRooms (token : string) : M unit :=
  try_catch
    (response ← Service.startBreakoutRooms env token;
     processConversations token response)
    (λ error,
       console_error error ;;
       showError (t env "spreed" "An error occurred while starting breakout rooms")).

Definition stopBreakoutRooms (token : string) : M unit :=
  try_catch
    (response ← Service.stopBreakoutRooms env token;
     processConversations token response)
    (λ error,
       console_error error ;;
       showError (t env "spreed" "An error occurred while stopping breakout rooms")).

Definition broadcastMessageToBreakoutRooms (token message : string) : M unit :=
  try_catch
    (Service.broadcastMessageToBreakoutRooms env token message ;; mret tt)
    (λ error,
       console_error error ;;
       showError
         (t env "spreed" "An error occurred while sending a message to the breakout rooms")).

Definition requestAssistance (token : string) : M unit :=
  try_catch
    (response ← Service.requestAssistance env token;
     let parentToken := Conversation.objectId response in
     processConversations parentToken (Single response))
    (λ error,
       console_error error ;;
       showError (t env "spreed" "An error occurred while requesting assistance")).

Definition dismissRequestAssistance (token : string) : M unit :=
  try_catch
    (response ← Service.resetRequestAssistance env token;
     let parentToken := Conversation.objectId response in
     processConversations parentToken (Single response))
    (λ error,
       console_error error ;;
       showError
         (t env "spreed" "An error occurred while resetting the request for assistance")).

Definition switchToBreakoutRoom (token target : string) : M unit :=
  try_catch
    (response ← Service.switchToBreakoutRoom env token target;
     processConversations token response)
    (λ error,
       console_error error ;;
       showError (t env "spreed" "An error occurred while joining breakout room")).

End WithEnv.
End Store.

(** The actions of the store as data, to speak about all of them. *)
Module Action.
Inductive t :=
| ProcessConversations (token : string) (conversationOrArray : ConversationOrArray)
| PurgeBreakoutRoomsStore (token : string)
| AddBreakoutRoom (token : string) (breakoutRoom : BreakoutRoom)
| ConfigureBreakoutRooms (token : string) (mode amount : Z) (attendeeMap : option string)
| ReorganizeAttendees (token attendeeMap : string)
| DeleteBreakoutRooms (token : string)
| GetBreakoutRooms (token : string)
| StartBreakoutRooms (token : string)
| StopBreakoutRooms (token : string)
| BroadcastMessageToBreakoutRooms (token message : string)
| FetchBreakoutRoomsParticipants (token : string)
| RequestAssistance (token : string)
| DismissRequestAssistance (token : string)
| SwitchToBreakoutRoom (token target : string).

Definition run (env : Env) (a : t) : M unit :=
  match a with
  | ProcessConversations token conversationOrArray =>
      Store.processConversations env token conversationOrArray
  | PurgeBreakoutRoomsStore token => Store.purgeBreakoutRoomsStore token
  | AddBreakoutRoom token breakoutRoom => Store.addBreakoutRoom token breakoutRoom
  | ConfigureBreakoutRooms token mode amount attendeeMap =>
      Store.configureBreakoutRooms env token mode amount attendeeMap
  | ReorganizeAttendees token attendeeMap => Store.reorganizeAttendees env token attendeeMap
  | DeleteBreakoutRooms token => Store.deleteBreakoutRooms env token
  | GetBreakoutRooms token => Store.getBreakoutRooms env token
  | StartBreakoutRooms token => Store.startBreakoutRooms env token
  | StopBreakoutRooms token => Store.stopBreakoutRooms env token
  | BroadcastMessageToBreakoutRooms token message =>
      Store.broadcastMessageToBreakoutRooms env token message
  | FetchBreakoutRoomsParticipants token => Store.fetchBreakoutRoomsParticipants env token
  | RequestAssistance token => Store.requestAssistance env token
  | DismissRequestAssistance token => Store.dismissRequestAssistance env token
  | SwitchToBreakoutRoom token target => Store.switchToBreakoutRoom env token target
  end.

(** The service function an asynchronous action awaits first, with the
    arguments the action passes to it. *)
Definition service (a : t) : option Call.t :=
  match a with
  | ProcessConversations _ _ | PurgeBreakoutRoomsStore _ | AddBreakoutRoom _ _ => None
  | ConfigureBreakoutRooms token mode amount attendeeMap =>
      Some (Call.ConfigureBreakoutRooms token mode amount attendeeMap)
  | ReorganizeAttendees token attendeeMap => Some (Call.ReorganizeAttendees token attendeeMap)
  | DeleteBreakoutRooms token => Some (Call.DeleteBreakoutRooms token)
  | GetBreakoutRooms token => Some (Call.GetBreakoutRooms token)
  | StartBreakoutRooms token => Some (Call.StartBreakoutRooms token)
  | StopBreakoutRooms token => Some (Call.StopBreakoutRooms token)
  | BroadcastMessageToBreakoutRooms token message =>
      Some (Call.BroadcastMessageToBreakoutRooms token message)
  | FetchBreakoutRoomsParticipants token => Some (Call.GetBreakoutRoomsParticipants token)
  | RequestAssistance token => Some (Call.RequestAssistance token)
  | DismissRequestAssistance token => Some (Call.ResetRequestAssistance token)
  | SwitchToBreakoutRoom token target => Some (Call.SwitchToBreakoutRoom token target)
  end.

(** The message each action's [catch] block passes to [showError], when it
    calls [showError] at all. *)
Definition toast (a : t) : option string :=
  match a with
  | ProcessConversations _ _ | PurgeBreakoutRoomsStore _ | AddBreakoutRoom _ _ => None
  | GetBreakoutRooms _ | FetchBreakoutRoomsParticipants _ => None
  | ConfigureBreakoutRooms _ _ _ _ => Some "An error occurred while creating breakout rooms"
  | ReorganizeAttendees _ _ => Some "An error occurred while re-ordering the attendees"
  | DeleteBreakoutRooms _ => Some "An error occurred while deleting breakout rooms"
  | StartBreakoutRooms _ => Some "An error occurred while starting breakout rooms"
  | StopBreakoutRooms _ => Some "An error occurred while stopping breakout rooms"
  | BroadcastMessageToBreakoutRooms _ _ =>
      Some "An error occurred while sending a message to the breakout rooms"
  | RequestAssistance _ => Some "An error occurred while requesting assistance"
  | DismissRequestAssistance _ =>
      Some "An error occurred while resetting the request for assistance"
  | SwitchToBreakoutRoom _ _ => Some "An error occurred while joining breakout room"
  end.
End Action.

(** ** Pure views of the state, used to state the properties *)

(** The object stored under a parent token, empty when there is none: what
    [Object (state.rooms[token])] evaluates to. *)
Definition rooms_of (state : State) (token : string) : gmap string Conversation.t :=
  default ∅ (rooms state !! token).

(** The net effect of [addBreakoutRoom] on the record of rooms. *)
Definition upsert (token : string) (breakoutRoom : BreakoutRoom)
    (r : gmap string (gmap string Conversation.t)) : gmap string (gmap string Conversation.t) :=
  <[token := <[Conversation.token breakoutRoom := breakoutRoom]> (default ∅ (r !! token))]> r.

Definition is_breakout_room (env : Env) (conversation : Conversation.t) : bool :=
  String.eqb (Conversation.objectType conversation) (BREAKOUT_ROOM env).

Definition to_array (conversationOrArray : ConversationOrArray) : list Conversation.t :=
  match conversationOrArray with
  | Array conversations => conversations
  | Single conversation => [conversation]
  end.

(** The conversations of a response that carry the breakout-room type tag. *)
Definition breakout_rooms_in (env : Env) (conversationOrArray : ConversationOrArray)
    : list Conversation.t :=
  filter (λ c, is_breakout_room env c = true) (to_array conversationOrArray).

(** A list of rooms as an object keyed by room token; where a token occurs
    twice the later room wins, as with successive assignments. *)
Definition by_token (l : list Conversation.t) : gmap string Conversation.t :=
  list_to_map (reverse ((λ c, (Conversation.token c, c)) <$> l)).

(** Every entry of the store sits under its own token. *)
Definition keyed_by_token (state : State) : Prop :=
  map_Forall (λ _ o,
    map_Forall (λ key (breakoutRoom : BreakoutRoom), Conversation.token breakoutRoom = key) o)
    (rooms state).

#[global] Instance keyed_by_token_dec (state : State) : Decision (keyed_by_token state).
Proof. unfold keyed_by_token. apply _. Defined.

(** An action preserves a property of the state when the property survives
    the action from every world, however the action ends. *)
Definition preserves {A} (P : State → Prop) (m : M A) : Prop :=
  ∀ w, P (store w) → P (store (m w).2).

(** ** Observations on traces and actions *)

(** The effects that happened after world [w] on the way to world [w']. *)
Definition effects_since (w w' : World) : list Effect :=
  drop (length (trace w)) (trace w').

Definition requests_in (effects : list Effect) : list Request :=
  omap (λ e, match e with Http r => Some r | _ => None end) effects.

Definition toasts_in (effects : list Effect) : list string :=
  omap (λ e, match e with ShowError message => Some message | _ => None end) effects.

(** A computation that always returns and shows no toast, with what is known
    of the requests it puts on the wire. *)
Definition steady {A} (R : list Request → Prop) (m : M A) : Prop :=
  ∀ w, ∃ a s effects,
    m w = (Returned a, {| store := s; trace := trace w ++ effects |}) ∧
    toasts_in effects = [] ∧ R (requests_in effects).

Definition no_requests (l : list Request) : Prop := l = [].

(** The requests of one call of the participants service, from some world. *)
Definition one_participants_call (env : Env) (token : string) (l : list Request) : Prop :=
  ∃ w, l = requests_in
             (effects_since w (Service.getBreakoutRoomsParticipants env token w).2).

(** The participants of a response that sit in one room, in response order. *)
Definition participants_of (roomToken : string) (response : list Participant.t)
    : list Participant.t :=
  filter (λ participant, Participant.roomToken participant = roomToken) response.

(** The actions that go on to fetch the participants once their own call
    has resolved. *)
Definition fetches_participants_after (a : Action.t) : bool :=
  match a with
  | Action.ConfigureBreakoutRooms _ _ _ _ | Action.ReorganizeAttendees _ _ => true
  | _ => false
  end.

(** The parent token an action is given to write under.  The two assistance
    actions take theirs from the response instead, and the broadcast and the
    participants fetch never write. *)
Definition parent_written (a : Action.t) : option string :=
  match a with
  | Action.ProcessConversations token _ | Action.PurgeBreakoutRoomsStore token
  | Action.AddBreakoutRoom token _ | Action.ConfigureBreakoutRooms token _ _ _
  | Action.ReorganizeAttendees token _ | Action.DeleteBreakoutRooms token
  | Action.GetBreakoutRooms token | Action.StartBreakoutRooms token
  | Action.StopBreakoutRooms token | Action.SwitchToBreakoutRoom token _ => Some token
  | _ => None
  end.

(** ** Sample data *)

Module Sample.
Definition room (token parent : string) : Conversation.t :=
  {| Conversation.token := token; Conversation.objectType := "room";
     Conversation.objectId := parent; Conversation.members := [] |}.

Definition group (token : string) : Conversation.t :=
  {| Conversation.token := token; Conversation.objectType := "";
     Conversation.objectId := ""; Conversation.members := [] |}.

Definition attendee (roomToken name : string) : Participant.t :=
  {| Participant.roomToken := roomToken; Participant.members := [("displayName", name)] |}.

(** A server that answers every request successfully. *)
Definition up (data : ConversationOrArray) (one : Conversation.t)
    (attendees : list Participant.t) : Server :=
  {| conversations := λ _ _, inr data;
     conversation := λ _ _, inr one;
     participants := λ _ _, inr attendees |}.

(** A server that cannot be reached. *)
Definition down : Server :=
  {| conversations := λ _ _, inl (NetworkError "Network Error");
     conversation := λ _ _, inl (NetworkError "Network Error");
     participants := λ _ _, inl (NetworkError "Network Error") |}.

(** A server that serves the conversation endpoints but not the participants. *)
Definition half (data : ConversationOrArray) (one : Conversation.t) : Server :=
  {| conversations := λ _ _, inr data;
     conversation := λ _ _, inr one;
     participants := λ _ _, inl (HttpError 403 "Forbidden") |}.

(** Replaces each placeholder in braces by the token. *)
Fixpoint fill (inside : bool) (token url : string) : string :=
  match url with
  | EmptyString => EmptyString
  | String c url' =>
      if inside then fill (negb (Ascii.eqb c "}"%char)) token url'
      else if Ascii.eqb c "{"%char then (token ++ fill true token url')%string
      else String c (fill false token url')
  end.

(** A client that sends each call as it is. *)
Definition env (s : Server) : Env :=
  {| BREAKOUT_ROOM := "room";
     generateOcsUrl := λ url token, ("/ocs/v2.php" ++ fill false token url)%string;
     t := λ app text, text;
     server := s;
     resends := λ _ _, [] |}.

(** A client whose first attempt fails the CSRF check: it fetches a fresh
    token and sends the request again. *)
Definition csrf (s : Server) : Env :=
  {| BREAKOUT_ROOM := "room";
     generateOcsUrl := λ url token, ("/ocs/v2.php" ++ fill false token url)%string;
     t := λ app text, text;
     server := s;
     resends := λ _ r, [{| method := GET; url := "/csrftoken"; body := None |}; r] |}.

(** A participant whose room token is the name of an inherited member. *)
Definition stray : list Participant.t :=
  [attendee "a" "Ada"; attendee "constructor" "Bo"].

Definition fresh : World := {| store := Store.initial; trace := [] |}.

(** A response with one breakout room and its parent conversation. *)
Definition mixed : ConversationOrArray := Array [room "a" "T"; group "T"].

(** A response with two breakout rooms and their parent conversation. *)
Definition pair : ConversationOrArray := Array [room "a" "T"; group "T"; room "b" "T"].

(** The same response in the opposite order. *)
Definition riap : ConversationOrArray := Array [room "b" "T"; group "T"; room "a" "T"].

(** A response with one breakout room, a new one. *)
Definition renewed : ConversationOrArray := Array [room "new" "T"].

(** Three participants in two rooms. *)
Definition crowd : list Participant.t :=
  [attendee "a" "Ada"; attendee "b" "Bo"; attendee "a" "Cy"].

(** A store that already holds room [old] under parent [T]. *)
Definition stale : World :=
  {| store := {| rooms := {[ "T" := {[ "old" := room "old" "T" ]} ]} |}; trace := [] |}.
End Sample.

(** ** The monad: how the building blocks run *)

Section Running.
Context {A B : Type}.

Lemma run_ret (a : A) (w : World) : mret (M := M) a w = (Returned a, w).
Proof. reflexivity. Qed.

Lemma run_bind_returned (m : M A) (f : A → M B) (w w' : World) (a : A) :
  m w = (Returned a, w') → (m ≫= f) w = f a w'.
Proof. intros H. unfold mbind, M_bind. by rewrite H. Qed.

Lemma run_bind_thrown (m : M A) (f : A → M B) (w w' : World) (e : JsError) :
  m w = (Thrown e, w') → (m ≫= f) w = (Thrown e, w').
Proof. intros H. unfold mbind, M_bind. by rewrite H. Qed.

Lemma run_try_returned (body : M A) (handler : JsError → M A) (w w' : World) (a : A) :
  body w = (Returned a, w') → try_catch body handler w = (Returned a, w').
Proof. intros H. unfold try_catch. by rewrite H. Qed.

Lemma run_try_thrown (body : M A) (handler : JsError → M A) (w w' : World) (e : JsError) :
  body w = (Thrown e, w') → try_catch body handler w = handler e w'.
Proof. intros H. unfold try_catch. by rewrite H. Qed.
End Running.

Lemma run_perform (e : Effect) (w : World) :
  perform e w = (Returned tt, {| store := store w; trace := trace w ++ [e] |}).
Proof. reflexivity. Qed.

(** A loop whose body only dispatches extends the trace by one dispatch per
    element, in order, and touches nothing else. *)
Lemma forEach_dispatch {A} (g : A → StoreAction) (l : list A) (w : World) :
  forEach l (λ x, dispatch (g x)) w =
  (Returned tt, {| store := store w; trace := trace w ++ (Dispatch ∘ g <$> l) |}).
Proof.
  revert w. induction l as [|x l IH]; intros w; simpl.
  - rewrite app_nil_r. by destruct w.
  - erewrite run_bind_returned; [|reflexivity].
    rewrite IH. simpl. by rewrite <- app_assoc.
Qed.

Lemma forEach_ext {A} (f g : A → M unit) (l : list A) :
  (∀ x, f x = g x) → forEach l f = forEach l g.
Proof. intros H. induction l as [|x l IH]; simpl; [done|]. by rewrite H, IH. Qed.

(** A call adds its request and the client's re-sends to the trace and
    nothing else, whatever the answer. *)
Lemma send_world {A} (again : list Effect → Request → list Request)
    (oracle : list Effect → Request → JsError + A) (r : Request) (w : World) :
  (send again oracle r w).2 =
  {| store := store w; trace := trace w ++ Http r :: (Http <$> again (trace w) r) |}.
Proof. unfold send. by destruct (oracle (trace w) r). Qed.

Lemma send_inv {A} (again : list Effect → Request → list Request)
    (oracle : list Effect → Request → JsError + A) (r : Request) (w : World) :
  send again oracle r w =
  ((send again oracle r w).1,
   {| store := store w; trace := trace w ++ Http r :: (Http <$> again (trace w) r) |}).
Proof. unfold send. by destruct (oracle (trace w) r). Qed.

Lemma run_lift {A} (r : JsError + A) (w : World) :
  lift r w = (match r with inl e => Thrown e | inr a => Returned a end, w).
Proof. by destruct r. Qed.

(** ** Rooms keyed by token *)

Lemma by_token_nil : by_token [] = ∅.
Proof. reflexivity. Qed.

Lemma by_token_cons (c : Conversation.t) (l : list Conversation.t) :
  by_token (c :: l) = by_token l ∪ {[ Conversation.token c := c ]}.
Proof.
  unfold by_token. rewrite fmap_cons, reverse_cons, list_to_map_app. simpl.
  by rewrite insert_empty.
Qed.


Lemma lookup_by_token_None (l : list Conversation.t) (key : string) :
  by_token l !! key = None ↔ ∀ c, c ∈ l → Conversation.token c ≠ key.
Proof.
  unfold by_token. rewrite <- not_elem_of_list_to_map.
  rewrite fmap_reverse, elem_of_reverse, <- list_fmap_compose, list_elem_of_fmap.
  split.
  - intros H c Hc Heq. apply H. exists c. by rewrite <- Heq.
  - intros H (c & -> & Hc). by apply (H c).
Qed.

Lemma by_token_size (l : list Conversation.t) :
  NoDup (Conversation.token <$> l) → size (by_token l) = length l.
Proof.
  intros Hnd. unfold by_token.
  rewrite map_size_list_to_map.
  - by rewrite length_reverse, length_fmap.
  - by rewrite fmap_reverse, <- list_fmap_compose, reverse_Permutation.
Qed.

(** ** The synchronous actions *)

Section Store_runs.
Variable env : Env.

Lemma addBreakoutRoom_run (token : string) (breakoutRoom : BreakoutRoom) (w : World) :
  Store.addBreakoutRoom token breakoutRoom w =
  (Returned tt,
   {| store := {| rooms := upsert token breakoutRoom (rooms (store w)) |};
      trace := trace w |}).
Proof.
  unfold Store.addBreakoutRoom, upsert, mbind, M_bind, get_rooms, set_rooms, mret, M_ret.
  destruct (rooms (store w) !! token) as [o|] eqn:E; simpl; do 3 f_equal.
  - apply map_eq. intros i. destruct (decide (i = token)) as [->|Hne].
    + by rewrite lookup_alter_eq, lookup_insert_eq, E.
    + by rewrite lookup_alter_ne, lookup_insert_ne.
  - by rewrite alter_insert_eq.
Qed.

Lemma forEach_add (token : string) (l : list Conversation.t) (w : World) :
  forEach l (λ conversation,
    if String.eqb (Conversation.objectType conversation) (BREAKOUT_ROOM env)
    then Store.addBreakoutRoom token conversation
    else mret tt) w =
  (Returned tt,
   {| store := {| rooms := foldl (λ r c, upsert token c r) (rooms (store w))
                             (filter (λ c, is_breakout_room env c = true) l) |};
      trace := trace w |}).
Proof.
  unfold is_breakout_room.
  revert w. induction l as [|c l IH]; intros w.
  - simpl. by destruct w as [[?] ?].
  - cbn [forEach]. rewrite filter_cons.
    destruct (String.eqb (Conversation.objectType c) (BREAKOUT_ROOM env)) eqn:E.
    + erewrite run_bind_returned; [|apply addBreakoutRoom_run].
      rewrite IH. rewrite decide_True by done. reflexivity.
    + erewrite run_bind_returned; [|reflexivity].
      rewrite IH. rewrite decide_False by done. reflexivity.
Qed.

Lemma processConversations_run (token : string) (data : ConversationOrArray) (w : World) :
  Store.processConversations env token data w =
  (Returned tt,
   {| store := {| rooms := foldl (λ r c, upsert token c r) (rooms (store w))
                             (breakout_rooms_in env data) |};
      trace := trace w ++ [Dispatch (patchConversations (to_array data))] |}).
Proof.
  unfold Store.processConversations.
  erewrite run_bind_returned; [|apply forEach_add].
  reflexivity.
Qed.

Lemma purgeBreakoutRoomsStore_run (token : string) (w : World) :
  Store.purgeBreakoutRoomsStore token w =
  (Returned tt,
   {| store := {| rooms := delete token (rooms (store w)) |};
      trace := trace w ++
        (Dispatch ∘ deleteConversation <$> Object_keys (rooms_of (store w) token)) |}).
Proof.
  unfold Store.purgeBreakoutRoomsStore.
  erewrite run_bind_returned; [|reflexivity].
  erewrite run_bind_returned; [|apply forEach_dispatch].
  unfold rooms_of. simpl.
  by destruct (rooms (store w) !! token).
Qed.
End Store_runs.

(** What a sequence of insertions leaves under the parent token and elsewhere. *)
Lemma foldl_upsert_rooms_of (token : string) (l : list Conversation.t)
    (r : gmap string (gmap string Conversation.t)) :
  default ∅ (foldl (λ r c, upsert token c r) r l !! token) =
  by_token l ∪ default ∅ (r !! token).
Proof.
  revert r. induction l as [|c l IH]; intros r.
  - simpl. by rewrite by_token_nil, (left_id_L ∅ (∪)).
  - simpl. rewrite IH, by_token_cons. unfold upsert at 1.
    rewrite lookup_insert_eq. simpl.
    by rewrite <- (assoc_L (∪)), <- insert_union_singleton_l.
Qed.

Lemma foldl_upsert_other (token parent : string) (l : list Conversation.t)
    (r : gmap string (gmap string Conversation.t)) :
  parent ≠ token → foldl (λ r c, upsert token c r) r l !! parent = r !! parent.
Proof.
  intros Hne. revert r. induction l as [|c l IH]; intros r; [done|].
  simpl. rewrite IH. unfold upsert. by rewrite lookup_insert_ne.
Qed.

Lemma foldl_upsert_is_Some (token : string) (l : list Conversation.t)
    (r : gmap string (gmap string Conversation.t)) :
  l ≠ [] → is_Some (foldl (λ r c, upsert token c r) r l !! token).
Proof.
  intros Hl. revert r. induction l as [|c l IH]; intros r; [done|].
  simpl. destruct l as [|c' l'].
  - simpl. unfold upsert. rewrite lookup_insert_eq. eauto.
  - by apply IH.
Qed.

(** ** Enumeration of objects *)


Lemma length_Object_values {V} (o : gmap string V) : length (Object_values o) = size o.
Proof. unfold Object_values. by rewrite length_fmap, length_map_to_list. Qed.


Lemma Object_values_nil {V} (o : gmap string V) : Object_values o = [] ↔ o = ∅.
Proof.
  unfold Object_values. rewrite <- map_to_list_empty_iff.
  split; [apply fmap_nil_inv | by intros ->].
Qed.



(** The getter reads the object under the token, an empty one when absent. *)
Lemma breakoutRooms_rooms_of (state : State) (token : string) :
  Store.breakoutRooms state token = Object_values (rooms_of state token).
Proof.
  unfold Store.breakoutRooms, rooms_of.
  destruct (rooms state !! token); simpl; [done|].
  unfold Object_values. by rewrite map_to_list_empty.
Qed.

Lemma inherited_true (key : string) : inherited key = true ↔ key ∈ Object_prototype.
Proof. unfold inherited. apply bool_decide_eq_true. Qed.

Lemma read_Undefined {V} (o : gmap string V) (key : string) :
  read o key = Undefined ↔ o !! key = None ∧ inherited key = false.
Proof.
  unfold read. destruct (o !! key); [by split; [|intros [? _]]|].
  destruct (inherited key); by split; [|intros [_ ?]].
Qed.


(** ** The service layer *)

(** C7 (as amended). Each of the eleven service functions makes exactly one
    call to the client, whether the call then resolves or rejects: the request
    of the endpoint table goes on the wire once (the table's method, the URL
    built by [generateOcsUrl] from the table's path under the API root with the
    token as path parameter, the payload fields as body), followed only by what
    the client itself re-sends for that call.  The function repeats nothing of
    its own: with a client that re-sends nothing the trace grows by that one
    request. *)
Theorem service_makes_one_call (env : Env) (c : Call.t) (w : World) :
  (Call.run env c w).2 =
    {| store := store w;
       trace := trace w ++
         Http (Call.request env c) ::
         (Http <$> resends env (trace w) (Call.request env c)) |} ∧
  (resends env (trace w) (Call.request env c) = [] →
   trace (Call.run env c w).2 = trace w ++ [Http (Call.request env c)]).
Proof.
  assert (H : (Call.run env c w).2 =
    {| store := store w;
       trace := trace w ++
         Http (Call.request env c) ::
         (Http <$> resends env (trace w) (Call.request env c)) |}).
  { destruct c as [? ? ? [?|]| | | | | | | | | |]; apply send_world. }
  split; [exact H|]. intros Hnone. by rewrite H, Hnone.
Qed.

Lemma service_makes_one_call_witness :
  trace (Call.run (Sample.env Sample.down) (Call.ConfigureBreakoutRooms "T" 1 2 None)
           Sample.fresh).2 =
  [Http {| method := POST;
           url := "/ocs/v2.php/apps/spreed/api/v1/breakout-rooms/T";
           body := Some [("mode", JNumber 1); ("amount", JNumber 2);
                         ("attendeeMap", JUndefined)] |}].
Proof.
  apply (service_makes_one_call (Sample.env Sample.down)
           (Call.ConfigureBreakoutRooms "T" 1 2 None) Sample.fresh).
  reflexivity.
Defined.

(** C7 fails as stated: with the client re-sending after a failed CSRF
    check, one call of a service function puts three requests on the wire. *)
Lemma resending_client_sends_three :
  trace (Call.run (Sample.csrf (Sample.up Sample.mixed (Sample.group "T") []))
           (Call.StartBreakoutRooms "T") Sample.fresh).2 =
  [Http {| method := POST;
           url := "/ocs/v2.php/apps/spreed/api/v1/breakout-rooms/T/rooms";
           body := None |};
   Http {| method := GET; url := "/csrftoken"; body := None |};
   Http {| method := POST;
           url := "/ocs/v2.php/apps/spreed/api/v1/breakout-rooms/T/rooms";
           body := None |}].
Proof. reflexivity. Qed.

(** ** The getters *)




(** ** Merging a server response: [processConversations] *)




(** C1 (as amended). A sync merges into the mapping of the parent token: after
    it the mapping consists of the breakout-room-typed conversations of the
    response, keyed by token, together with every entry from before the sync
    whose token is not among theirs.  Entries are carried over, not dropped. *)
Theorem sync_merges_into_mapping
    (env : Env) (token : string) (data : ConversationOrArray) (w : World) :
  let w' := (Store.processConversations env token data w).2 in
  rooms_of (store w') token = by_token (breakout_rooms_in env data) ∪ rooms_of (store w) token ∧
  (∀ key old, rooms_of (store w) token !! key = Some old →
     (∀ c, c ∈ breakout_rooms_in env data → Conversation.token c ≠ key) →
     rooms_of (store w') token !! key = Some old).
Proof.
  rewrite processConversations_run. cbn zeta. unfold rooms_of. simpl.
  rewrite foldl_upsert_rooms_of. split; [done|].
  intros key old Hold Hkey. rewrite lookup_union_r; [done|].
  by apply lookup_by_token_None.
Qed.

Lemma sync_merges_into_mapping_witness :
  rooms_of (store (Store.processConversations (Sample.env Sample.down) "T"
                     Sample.renewed Sample.stale).2) "T" !! "old" =
  Some (Sample.room "old" "T").
Proof.
  apply (sync_merges_into_mapping (Sample.env Sample.down) "T" Sample.renewed Sample.stale).
  - reflexivity.
  - intros c Hc. vm_compute in Hc.
    apply elem_of_cons in Hc as [->|Hc]; [discriminate|].
    by apply elem_of_nil in Hc.
Defined.

(** C1 fails as stated: a room stored before the sync and absent from the
    response is still in the mapping after the sync. *)
Lemma sync_keeps_stale_room :
  breakout_rooms_in (Sample.env Sample.down) Sample.renewed = [Sample.room "new" "T"] ∧
  rooms_of (store (Store.processConversations (Sample.env Sample.down) "T"
                     Sample.renewed Sample.stale).2) "T" !! "old" =
    Some (Sample.room "old" "T") ∧
  length (Store.breakoutRooms
            (store (Store.processConversations (Sample.env Sample.down) "T"
                      Sample.renewed Sample.stale).2) "T") = 2.
Proof. vm_compute. done. Qed.

(** ** The asynchronous actions *)

(** An action of the shape [try { r = await service; k (r) } catch { handler }]
    continues with [k] when the service call resolves and jumps to the handler
    when it rejects. *)
Lemma run_action_resolved {A} (service : M A) (k : A → M unit) (handler : JsError → M unit)
    (w : World) (response : A) :
  (service w).1 = Returned response →
  try_catch (service ≫= k) handler w = try_catch (k response) handler (service w).2.
Proof.
  intros H. unfold try_catch, mbind, M_bind.
  destruct (service w) as [o w1]. simpl in H. subst o. reflexivity.
Qed.

Lemma run_action_rejected {A} (service : M A) (k : A → M unit) (handler : JsError → M unit)
    (w : World) (e : JsError) :
  (service w).1 = Thrown e →
  try_catch (service ≫= k) handler w = handler e (service w).2.
Proof.
  intros H. unfold try_catch, mbind, M_bind.
  destruct (service w) as [o w1]. simpl in H. subst o. reflexivity.
Qed.

Lemma try_catch_returns (body : M unit) (handler : JsError → M unit) (w : World) :
  (∀ e w', (handler e w').1 = Returned tt) →
  (try_catch body handler w).1 = Returned tt.
Proof.
  intros H. unfold try_catch. destruct (body w) as [[[]|e] w']; [done | apply H].
Qed.

Section Preservation.
Context {A B : Type} (P : State → Prop).

Lemma preserves_ret (a : A) : preserves P (mret (M := M) a).
Proof. by intros w. Qed.

Lemma preserves_bind (m : M A) (f : A → M B) :
  preserves P m → (∀ a, preserves P (f a)) → preserves P (m ≫= f).
Proof.
  intros Hm Hf w Hw. specialize (Hm w Hw). unfold mbind, M_bind.
  destruct (m w) as [[a|e] w']; simpl in *; [by apply Hf | done].
Qed.

Lemma preserves_try_catch (body : M A) (handler : JsError → M A) :
  preserves P body → (∀ e, preserves P (handler e)) → preserves P (try_catch body handler).
Proof.
  intros Hb Hh w Hw. specialize (Hb w Hw). unfold try_catch.
  destruct (body w) as [[a|e] w']; simpl in *; [done | by apply Hh].
Qed.

Lemma preserves_send (again : list Effect → Request → list Request)
    (oracle : list Effect → Request → JsError + A) (r : Request) :
  preserves P (send again oracle r).
Proof. intros w Hw. by rewrite send_world. Qed.

Lemma preserves_lift (r : JsError + A) : preserves P (lift r).
Proof. intros w Hw. by destruct r. Qed.

Lemma preserves_forEach (l : list A) (f : A → M unit) :
  (∀ x, preserves P (f x)) → preserves P (forEach l f).
Proof.
  intros Hf. induction l as [|x l IH]; simpl.
  - by intros w.
  - intros w Hw. specialize (Hf x w Hw). unfold mbind, M_bind.
    destruct (f x w) as [[[]|e] w']; simpl in *; [by apply IH | done].
Qed.
End Preservation.

Lemma preserves_perform (P : State → Prop) (e : Effect) : preserves P (perform e).
Proof. by intros w. Qed.

Section Async.
Variable env : Env.

(** Fetching the participants never touches the rooms and never rejects. *)
Lemma fetchBreakoutRoomsParticipants_run (token : string) (w : World) :
  ∃ effects,
    Store.fetchBreakoutRoomsParticipants env token w =
    (Returned tt, {| store := store w; trace := trace w ++ effects |}).
Proof.
  unfold Store.fetchBreakoutRoomsParticipants, Service.getBreakoutRoomsParticipants,
    Service.axios_get, send, try_catch, mbind, M_bind.
  destruct (participants (server env) (trace w) _) as [e|response]; simpl.
  - eexists. unfold console_error. rewrite run_perform. simpl.
    by rewrite <- app_assoc.
  - rewrite run_lift.
    destruct (reduce Store.splitParticipant ∅ response) as [e|groups]; simpl.
    + eexists. unfold console_error. rewrite run_perform. simpl.
      by rewrite <- app_assoc.
    + rewrite (forEach_ext _ (λ entry, dispatch (patchParticipants entry.1 entry.2 false)))
        by (by intros [roomToken newParticipants]).
      rewrite (forEach_dispatch (λ entry, patchParticipants entry.1 entry.2 false)). simpl.
      eexists. by rewrite <- app_assoc.
Qed.

(** How every asynchronous action ends when its service call rejects: the
    handler logs the error and, if the action has a message, shows it. *)
Lemma run_when_service_rejects (a : Action.t) (c : Call.t) (w : World) (e : JsError) :
  Action.service a = Some c →
  (Call.run env c w).1 = Thrown e →
  Action.run env a w =
  (Returned tt,
   {| store := store w;
      trace := trace (Call.run env c w).2 ++
        ConsoleError e ::
        match Action.toast a with
        | Some text => [ShowError (t env "spreed" text)]
        | None => []
        end |}).
Proof.
  intros Hs He.
  assert (Hst : store (Call.run env c w).2 = store w)
    by (destruct c; exact (f_equal store (send_world _ _ _ w))).
  destruct a; simpl in Hs; try discriminate; injection Hs as <-; simpl in *;
    match goal with
    | |- ?action _ = _ =>
        unfold Store.configureBreakoutRooms, Store.reorganizeAttendees,
          Store.deleteBreakoutRooms, Store.getBreakoutRooms, Store.startBreakoutRooms,
          Store.stopBreakoutRooms, Store.broadcastMessageToBreakoutRooms,
          Store.fetchBreakoutRoomsParticipants, Store.requestAssistance,
          Store.dismissRequestAssistance, Store.switchToBreakoutRoom
    end;
    rewrite (run_action_rejected _ _ _ _ _ He);
    unfold console_error, showError, mbind, M_bind, perform; simpl;
    rewrite Hst, <- ?app_assoc; reflexivity.
Qed.
End Async.

(** ** Error handling *)

Lemma action_returns (env : Env) (a : Action.t) (w : World) :
  (Action.run env a w).1 = Returned tt.
Proof.
  destruct a; simpl;
    [ by rewrite processConversations_run
    | by rewrite purgeBreakoutRoomsStore_run
    | by rewrite addBreakoutRoom_run
    | apply try_catch_returns; intros e w'; reflexivity .. ].
Qed.

(** C6. No action of the store passes a failure on to its caller: whatever
    the server answers, and so for every error the service call may raise,
    the action resolves normally with no value.  The outcome seen by the caller
    is the same against any other server and from any other state, so it tells
    a network failure from rejected input no more than from success. *)
Theorem actions_never_reject (env : Env) (a : Action.t) (w : World) :
  (Action.run env a w).1 = Returned tt ∧
  ∀ env' w', (Action.run env' a w').1 = (Action.run env a w).1.
Proof.
  split; [apply action_returns|].
  intros env' w'. by rewrite !action_returns.
Qed.

(** C5 (as amended). When the service call of an action rejects, the action
    catches the error and logs it to the console, right after the request; it
    then shows a toast whose text is fixed per action and translated by [t],
    except in [getBreakoutRooms] and [fetchBreakoutRoomsParticipants], which
    show nothing. *)
Theorem failure_is_logged_and_toasted_unless_fetching
    (env : Env) (a : Action.t) (c : Call.t) (w : World) (e : JsError) :
  Action.service a = Some c →
  (Call.run env c w).1 = Thrown e →
  (Action.run env a w).1 = Returned tt ∧
  trace (Action.run env a w).2 =
    trace (Call.run env c w).2 ++
    ConsoleError e ::
    match Action.toast a with
    | Some text => [ShowError (t env "spreed" text)]
    | None => []
    end ∧
  (Action.toast a = None ↔
   ∃ token, a = Action.GetBreakoutRooms token ∨
            a = Action.FetchBreakoutRoomsParticipants token).
Proof.
  intros Hs He. rewrite (run_when_service_rejects env a c w e Hs He). simpl.
  split; [done|]. split; [done|].
  destruct a; simpl in *; try discriminate; split; try discriminate; eauto;
    intros [? [H|H]]; discriminate.
Qed.

Lemma failure_is_logged_and_toasted_unless_fetching_witness :
  trace (Action.run (Sample.env Sample.down) (Action.StartBreakoutRooms "T") Sample.fresh).2 =
  [Http {| method := POST;
           url := "/ocs/v2.php/apps/spreed/api/v1/breakout-rooms/T/rooms";
           body := None |};
   ConsoleError (NetworkError "Network Error");
   ShowError "An error occurred while starting breakout rooms"].
Proof.
  apply (failure_is_logged_and_toasted_unless_fetching (Sample.env Sample.down)
           (Action.StartBreakoutRooms "T") (Call.StartBreakoutRooms "T") Sample.fresh
           (NetworkError "Network Error")); reflexivity.
Defined.

(** C5 fails as stated: when their request fails, [getBreakoutRooms] and
    [fetchBreakoutRoomsParticipants] log the error and show no toast. *)
Lemma fetching_failure_shows_no_toast :
  (Call.run (Sample.env Sample.down) (Call.GetBreakoutRooms "T") Sample.fresh).1 =
    Thrown (NetworkError "Network Error") ∧
  trace (Action.run (Sample.env Sample.down) (Action.GetBreakoutRooms "T") Sample.fresh).2 =
    [Http {| method := GET;
             url := "/ocs/v2.php/apps/spreed/api/v4/room/T/breakout-rooms";
             body := None |};
     ConsoleError (NetworkError "Network Error")] ∧
  (Call.run (Sample.env Sample.down) (Call.GetBreakoutRoomsParticipants "T") Sample.fresh).1 =
    Thrown (NetworkError "Network Error") ∧
  trace (Action.run (Sample.env Sample.down)
           (Action.FetchBreakoutRoomsParticipants "T") Sample.fresh).2 =
    [Http {| method := GET;
             url := "/ocs/v2.php/apps/spreed/api/v4/room/T/breakout-rooms/participants";
             body := None |};
     ConsoleError (NetworkError "Network Error")].
Proof. repeat split; reflexivity. Qed.

(** C10. When the service call of an action rejects, the action leaves the
    rooms record exactly as it found it.  This covers the nine actions that
    write to the record, and the two that never do. *)
Theorem rooms_unchanged_when_service_rejects
    (env : Env) (a : Action.t) (c : Call.t) (w : World) (e : JsError) :
  Action.service a = Some c →
  (Call.run env c w).1 = Thrown e →
  store (Action.run env a w).2 = store w.
Proof.
  intros Hs He. by rewrite (run_when_service_rejects env a c w e Hs He).
Qed.

Lemma rooms_unchanged_when_service_rejects_witness :
  store (Action.run (Sample.env Sample.down) (Action.DeleteBreakoutRooms "T") Sample.stale).2 =
  store Sample.stale.
Proof.
  apply (rooms_unchanged_when_service_rejects (Sample.env Sample.down)
           (Action.DeleteBreakoutRooms "T") (Call.DeleteBreakoutRooms "T") Sample.stale
           (NetworkError "Network Error")); reflexivity.
Defined.

(** ** Deleting and configuring *)



(** What follows the service call in [configureBreakoutRooms] leaves the
    rooms as [processConversations] made them. *)
Lemma configure_continuation_run (env : Env) (token : string) (response : ConversationOrArray)
    (w : World) :
  ∃ effects,
    (Store.processConversations env token response ;;
     Store.fetchBreakoutRoomsParticipants env token ;;
     emit "spreed:select-active-sidebar-tab" "breakout-rooms" ;;
     dispatch showSidebar) w =
    (Returned tt,
     {| store := store (Store.processConversations env token response w).2;
        trace := effects |}).
Proof.
  rewrite processConversations_run. simpl.
  erewrite run_bind_returned; [|apply processConversations_run].
  match goal with
  | |- ∃ _, (_ ≫= _) ?w1 = _ =>
      destruct (fetchBreakoutRoomsParticipants_run env token w1) as [effects Hf]
  end.
  erewrite run_bind_returned; [|exact Hf].
  eexists. reflexivity.
Qed.

(** C3 (as amended). If the store lists no room for T beforehand, and the
    server answers [configureBreakoutRooms] for T and amount N with N
    breakout-room-typed conversations of pairwise distinct tokens, then
    afterwards the getter lists exactly N rooms for T (whether or not the
    participants could be fetched). *)
Theorem configured_rooms_are_listed
    (env : Env) (token : string) (mode amount : Z) (attendeeMap : option string)
    (w : World) (response : ConversationOrArray) :
  Store.breakoutRooms (store w) token = [] →
  (Service.configureBreakoutRooms env token mode amount attendeeMap w).1 = Returned response →
  NoDup (Conversation.token <$> breakout_rooms_in env response) →
  Z.of_nat (length (breakout_rooms_in env response)) = amount →
  Z.of_nat (length (Store.breakoutRooms
                      (store (Store.configureBreakoutRooms env token mode amount
                                attendeeMap w).2) token)) = amount.
Proof.
  intros Hempty H Hnd Hlen. unfold Store.configureBreakoutRooms.
  rewrite (run_action_resolved _ _ _ _ _ H).
  assert (Hw1 : (Service.configureBreakoutRooms env token mode amount attendeeMap w).2 =
                {| store := store w; trace := trace w ++ Http _ :: (Http <$> _) |})
    by apply send_world.
  rewrite Hw1. clear Hw1 H.
  match goal with
  | |- context [try_catch _ _ ?w1] =>
      destruct (configure_continuation_run env token response w1) as [effects Hk]
  end.
  erewrite run_try_returned; [|exact Hk].
  rewrite processConversations_run. simpl.
  rewrite breakoutRooms_rooms_of, length_Object_values. unfold rooms_of. simpl.
  rewrite foldl_upsert_rooms_of.
  rewrite breakoutRooms_rooms_of, Object_values_nil in Hempty. unfold rooms_of in Hempty.
  rewrite Hempty, (right_id_L ∅ (∪)), by_token_size; done.
Qed.

Lemma configured_rooms_are_listed_witness :
  Z.of_nat (length (Store.breakoutRooms
    (store (Store.configureBreakoutRooms
              (Sample.env (Sample.half Sample.pair (Sample.group "T")))
              "T" 1 2 None Sample.fresh).2) "T")) = 2%Z.
Proof.
  apply (configured_rooms_are_listed
           (Sample.env (Sample.half Sample.pair (Sample.group "T")))
           "T" 1 2 None Sample.fresh Sample.pair).
  - reflexivity.
  - reflexivity.
  - compute_done.
  - reflexivity.
Defined.

(** C3 fails as stated: with a room left under T from before, configuring one
    room leaves the getter with two entries. *)
Lemma configuring_over_stale_rooms_lists_more :
  (Service.configureBreakoutRooms
     (Sample.env (Sample.up Sample.renewed (Sample.group "T") []))
     "T" 1 1 None Sample.stale).1 = Returned Sample.renewed ∧
  length (breakout_rooms_in (Sample.env (Sample.up Sample.renewed (Sample.group "T") []))
            Sample.renewed) = 1 ∧
  length (Store.breakoutRooms
    (store (Store.configureBreakoutRooms
              (Sample.env (Sample.up Sample.renewed (Sample.group "T") []))
              "T" 1 1 None Sample.stale).2) "T") = 2.
Proof. vm_compute. done. Qed.

(** ** Uniqueness of room tokens *)

Lemma keyed_by_token_upsert (token : string) (breakoutRoom : BreakoutRoom)
    (r : gmap string (gmap string Conversation.t)) :
  keyed_by_token {| rooms := r |} →
  keyed_by_token {| rooms := upsert token breakoutRoom r |}.
Proof.
  unfold keyed_by_token, upsert, map_Forall. simpl. intros H parent o Hp key c Hk.
  destruct (decide (parent = token)) as [->|Hne].
  - rewrite lookup_insert_eq in Hp. injection Hp as <-.
    destruct (decide (key = Conversation.token breakoutRoom)) as [->|Hne].
    + rewrite lookup_insert_eq in Hk. by injection Hk as <-.
    + rewrite lookup_insert_ne in Hk by done.
      destruct (r !! token) as [o|] eqn:E; simpl in Hk; [by eapply H|].
      by rewrite lookup_empty in Hk.
  - rewrite lookup_insert_ne in Hp by done. by eapply H.
Qed.

Lemma keyed_by_token_delete (token : string) (r : gmap string (gmap string Conversation.t)) :
  keyed_by_token {| rooms := r |} → keyed_by_token {| rooms := delete token r |}.
Proof.
  unfold keyed_by_token, map_Forall. simpl. intros H parent o Hp key c Hk.
  apply lookup_delete_Some in Hp as [_ Hp]. by eapply H.
Qed.

Lemma preserves_addBreakoutRoom (token : string) (breakoutRoom : BreakoutRoom) :
  preserves keyed_by_token (Store.addBreakoutRoom token breakoutRoom).
Proof.
  intros [[r] tr] H. rewrite addBreakoutRoom_run. by apply keyed_by_token_upsert.
Qed.

Lemma preserves_purgeBreakoutRoomsStore (token : string) :
  preserves keyed_by_token (Store.purgeBreakoutRoomsStore token).
Proof.
  intros [[r] tr] H. rewrite purgeBreakoutRoomsStore_run. by apply keyed_by_token_delete.
Qed.

Create HintDb preserves.
#[local] Hint Resolve preserves_addBreakoutRoom preserves_purgeBreakoutRoomsStore
  preserves_perform : preserves.

(** Splits an action into its building blocks, stopping at the blocks whose
    effect on the state is known. *)
Ltac preserve :=
  repeat first
    [ solve [auto with preserves]
    | apply preserves_ret
    | apply preserves_send
    | apply preserves_lift
    | apply preserves_try_catch
    | apply preserves_forEach
    | apply preserves_bind
    | match goal with
      | |- preserves _ (if ?b then _ else _) => destruct b
      | |- preserves _ (let '(_, _) := ?x in _) => destruct x
      end
    | intros ? ].

Lemma preserves_processConversations (env : Env) (token : string)
    (data : ConversationOrArray) :
  preserves keyed_by_token (Store.processConversations env token data).
Proof. unfold Store.processConversations. preserve. Qed.

#[local] Hint Resolve preserves_processConversations : preserves.

Lemma preserves_action (env : Env) (a : Action.t) :
  preserves keyed_by_token (Action.run env a).
Proof. destruct a; simpl; [preserve .. ]. Qed.

Lemma keyed_tokens_are_keys (o : gmap string Conversation.t) :
  (∀ key c, o !! key = Some c → Conversation.token c = key) →
  Conversation.token <$> Object_values o = Object_keys o.
Proof.
  intros H. unfold Object_values, Object_keys.
  rewrite <- list_fmap_compose. apply list_fmap_ext.
  intros i [key c] Hin%list_elem_of_lookup_2%elem_of_map_to_list. simpl. by apply H.
Qed.

(** C8. Room tokens are unique within a parent's mapping, and every store
    operation keeps it so: every entry sits under its own token initially and
    after any action, whatever the server answers; hence the list the getter
    returns for a parent never holds two rooms with the same token; and adding
    a room whose token is already there replaces that entry, the list keeping
    its length. *)
Theorem room_tokens_are_unique :
  keyed_by_token Store.initial ∧
  (∀ env a w, keyed_by_token (store w) → keyed_by_token (store (Action.run env a w).2)) ∧
  (∀ state parent, keyed_by_token state →
     NoDup (Conversation.token <$> Store.breakoutRooms state parent)) ∧
  (∀ token breakoutRoom w old,
     rooms_of (store w) token !! Conversation.token breakoutRoom = Some old →
     rooms_of (store (Store.addBreakoutRoom token breakoutRoom w).2) token =
       <[Conversation.token breakoutRoom := breakoutRoom]> (rooms_of (store w) token) ∧
     length (Store.breakoutRooms (store (Store.addBreakoutRoom token breakoutRoom w).2) token) =
       length (Store.breakoutRooms (store w) token)).
Proof.
  split; [|split; [|split]].
  - apply map_Forall_empty.
  - intros env a w. apply preserves_action.
  - intros state parent H. unfold Store.breakoutRooms.
    destruct (rooms state !! parent) as [o|] eqn:E; [|constructor].
    rewrite keyed_tokens_are_keys; [apply NoDup_fst_map_to_list|].
    intros key c Hk. by apply (H parent o E key c).
  - intros token breakoutRoom w old Hold.
    rewrite addBreakoutRoom_run. simpl.
    assert (Heq : rooms_of {| rooms := upsert token breakoutRoom (rooms (store w)) |} token =
                  <[Conversation.token breakoutRoom := breakoutRoom]> (rooms_of (store w) token)).
    { unfold rooms_of, upsert. simpl. by rewrite lookup_insert_eq. }
    split; [done|].
    rewrite !breakoutRooms_rooms_of, !length_Object_values, Heq.
    apply map_size_insert_Some. eauto.
Qed.

Lemma room_tokens_are_unique_witness :
  keyed_by_token
    (store (Action.run (Sample.env (Sample.up Sample.pair (Sample.group "T") []))
              (Action.GetBreakoutRooms "T") Sample.fresh).2) ∧
  length (Store.breakoutRooms
            (store (Store.addBreakoutRoom "T" (Sample.room "old" "U") Sample.stale).2) "T") =
  length (Store.breakoutRooms (store Sample.stale) "T").
Proof.
  destruct room_tokens_are_unique as (Hinit & Hstep & _ & Hadd).
  split.
  - apply Hstep. exact Hinit.
  - apply (Hadd "T" (Sample.room "old" "U") Sample.stale (Sample.room "old" "T")).
    reflexivity.
Defined.

(** ** Runs on sample data *)

Example getBreakoutRooms_fresh :
  Action.run (Sample.env (Sample.up Sample.mixed (Sample.group "T") []))
    (Action.GetBreakoutRooms "T") Sample.fresh =
  (Returned tt,
   {| store := {| rooms := {[ "T" := {[ "a" := Sample.room "a" "T" ]} ]} |};
      trace :=
        [Http {| method := GET;
                 url := "/ocs/v2.php/apps/spreed/api/v4/room/T/breakout-rooms";
                 body := None |};
         Dispatch (patchConversations [Sample.room "a" "T"; Sample.group "T"])] |}).
Proof. vm_compute. reflexivity. Qed.

Example deleteBreakoutRooms_stale :
  Action.run (Sample.env (Sample.up (Single (Sample.group "T")) (Sample.group "T") []))
    (Action.DeleteBreakoutRooms "T") Sample.stale =
  (Returned tt,
   {| store := Store.initial;
      trace :=
        [Http {| method := DELETE;
                 url := "/ocs/v2.php/apps/spreed/api/v1/breakout-rooms/T";
                 body := None |};
         Dispatch (patchConversations [Sample.group "T"]);
         Dispatch (deleteConversation "old")] |}).
Proof. vm_compute. reflexivity. Qed.

(** The room that asks for assistance is filed under its [objectId]. *)
Example requestAssistance_fresh :
  Action.run (Sample.env (Sample.up Sample.mixed (Sample.room "a" "T") []))
    (Action.RequestAssistance "a") Sample.fresh =
  (Returned tt,
   {| store := {| rooms := {[ "T" := {[ "a" := Sample.room "a" "T" ]} ]} |};
      trace :=
        [Http {| method := POST;
                 url := "/ocs/v2.php/apps/spreed/api/v1/breakout-rooms/a/request-assistance";
                 body := None |};
         Dispatch (patchConversations [Sample.room "a" "T"])] |}).
Proof. vm_compute. reflexivity. Qed.

(** When only the participants cannot be fetched, the rooms are stored, the
    error is logged, and the sidebar still opens. *)
Example configureBreakoutRooms_half :
  trace (Action.run (Sample.env (Sample.half Sample.mixed (Sample.group "T")))
           (Action.ConfigureBreakoutRooms "T" 1 1 None) Sample.fresh).2 =
  [Http {| method := POST;
           url := "/ocs/v2.php/apps/spreed/api/v1/breakout-rooms/T";
           body := Some [("mode", JNumber 1); ("amount", JNumber 1);
                         ("attendeeMap", JUndefined)] |};
   Dispatch (patchConversations [Sample.room "a" "T"; Sample.group "T"]);
   Http {| method := GET;
           url := "/ocs/v2.php/apps/spreed/api/v4/room/T/breakout-rooms/participants";
           body := None |};
   ConsoleError (HttpError 403 "Forbidden");
   Emit "spreed:select-active-sidebar-tab" "breakout-rooms";
   Dispatch showSidebar].
Proof. vm_compute. reflexivity. Qed.

Example stale_is_keyed_by_token : keyed_by_token (store Sample.stale).
Proof. compute_done. Qed.

(** * Further properties of the store *)

(** ** Effects between two worlds *)

Lemma effects_since_app (w w' : World) (effects : list Effect) :
  trace w' = trace w ++ effects → effects_since w w' = effects.
Proof. intros H. unfold effects_since. rewrite H. apply drop_app_length. Qed.

Lemma requests_in_app (l k : list Effect) :
  requests_in (l ++ k) = requests_in l ++ requests_in k.
Proof. apply omap_app. Qed.

Lemma toasts_in_app (l k : list Effect) : toasts_in (l ++ k) = toasts_in l ++ toasts_in k.
Proof. apply omap_app. Qed.

Lemma requests_in_requests (l : list Request) : requests_in (Http <$> l) = l.
Proof.
  induction l as [|r l IH]; [done|].
  change (Http <$> r :: l) with ([Http r] ++ (Http <$> l)).
  by rewrite requests_in_app, IH.
Qed.

Lemma toasts_in_requests (l : list Request) : toasts_in (Http <$> l) = [].
Proof. by induction l. Qed.

Lemma requests_in_dispatches {A} (g : A → StoreAction) (l : list A) :
  requests_in (Dispatch ∘ g <$> l) = [].
Proof. by induction l. Qed.

Lemma toasts_in_dispatches {A} (g : A → StoreAction) (l : list A) :
  toasts_in (Dispatch ∘ g <$> l) = [].
Proof. by induction l. Qed.

(** ** Grouping the participants by room *)

Lemma splitParticipant_ordinary (acc : gmap string (list Participant.t))
    (participant : Participant.t) :
  inherited (Participant.roomToken participant) = false →
  Store.splitParticipant acc participant =
  inr (<[Participant.roomToken participant :=
          default [] (acc !! Participant.roomToken participant) ++ [participant]]> acc).
Proof.
  intros Hord. unfold Store.splitParticipant, read. cbv zeta. rewrite Hord.
  destruct (acc !! Participant.roomToken participant) as [l|] eqn:E; simpl.
  - by rewrite E.
  - by rewrite lookup_insert_eq, insert_insert_eq.
Qed.

Lemma splitParticipant_inherited (acc : gmap string (list Participant.t))
    (participant : Participant.t) :
  inherited (Participant.roomToken participant) = true →
  acc !! Participant.roomToken participant = None →
  Store.splitParticipant acc participant =
  inl (TypeError "acc[participant.roomToken].push is not a function").
Proof.
  intros Hin Hnone. unfold Store.splitParticipant, read. cbv zeta.
  rewrite Hnone, Hin. simpl. by rewrite ?Hnone, ?Hin.
Qed.

Lemma reduce_ordinary (response : list Participant.t)
    (acc : gmap string (list Participant.t)) :
  Forall (λ p, inherited (Participant.roomToken p) = false) response →
  ∃ groups,
    reduce Store.splitParticipant acc response = inr groups ∧
    ∀ roomToken,
      groups !! roomToken =
      match participants_of roomToken response with
      | [] => acc !! roomToken
      | group => Some (default [] (acc !! roomToken) ++ group)
      end.
Proof.
  unfold participants_of. intros Hall. revert acc.
  induction Hall as [|p response Hp Hall IH]; intros acc.
  - exists acc. by split.
  - simpl. rewrite (splitParticipant_ordinary acc p Hp).
    destruct (IH (<[Participant.roomToken p :=
                     default [] (acc !! Participant.roomToken p) ++ [p]]> acc))
      as (groups & -> & Hgroups).
    exists groups. split; [done|]. intros roomToken.
    rewrite Hgroups, filter_cons.
    destruct (decide (Participant.roomToken p = roomToken)) as [->|Hne].
    + rewrite lookup_insert_eq. simpl.
      destruct (filter _ response) as [|q group]; simpl; [done|].
      by rewrite <- app_assoc.
    + by rewrite lookup_insert_ne.
Qed.

Lemma reduce_inherited (response : list Participant.t)
    (acc : gmap string (list Participant.t)) :
  (∀ key, inherited key = true → acc !! key = None) →
  Exists (λ p, inherited (Participant.roomToken p) = true) response →
  reduce Store.splitParticipant acc response =
  inl (TypeError "acc[participant.roomToken].push is not a function").
Proof.
  intros Hacc Hex. revert acc Hacc.
  induction response as [|p response IH]; intros acc Hacc; [by apply Exists_nil in Hex|].
  simpl. destruct (inherited (Participant.roomToken p)) eqn:Hp.
  - by rewrite (splitParticipant_inherited acc p Hp (Hacc _ Hp)).
  - rewrite (splitParticipant_ordinary acc p Hp). apply IH.
    + apply Exists_cons in Hex as [Hhead|Htail]; [congruence | done].
    + intros key Hkey. rewrite lookup_insert_ne; [by apply Hacc | congruence].
Qed.

Lemma grouping_lookup (response : list Participant.t) :
  Forall (λ p, inherited (Participant.roomToken p) = false) response →
  ∃ groups,
    reduce Store.splitParticipant ∅ response = inr groups ∧
    ∀ roomToken group,
      groups !! roomToken = Some group ↔
      group ≠ [] ∧ group = participants_of roomToken response.
Proof.
  intros Hall. destruct (reduce_ordinary response ∅ Hall) as (groups & Heq & Hgroups).
  exists groups. split; [done|]. intros roomToken group.
  rewrite Hgroups, lookup_empty. simpl.
  destruct (participants_of roomToken response) as [|p l]; split.
  - done.
  - by intros [? ->].
  - intros [= <-]. done.
  - by intros [_ ->].
Qed.

Lemma grouping_throws (response : list Participant.t) :
  Exists (λ p, inherited (Participant.roomToken p) = true) response →
  reduce Store.splitParticipant ∅ response =
  inl (TypeError "acc[participant.roomToken].push is not a function").
Proof. apply reduce_inherited. intros key _. apply lookup_empty. Qed.

(** X1. The reduction in [fetchBreakoutRoomsParticipants] groups the response
    by room when no room token of the response is the name of a member
    inherited from [Object.prototype]: a room token then has a group exactly
    when some participant of the response sits in that room, the group is those
    participants, all of them, in response order, and no group is empty.  When
    some room token is such a name, the reduction throws a [TypeError] and
    yields no grouping. *)
Theorem participants_are_grouped_by_room (response : list Participant.t) :
  (Forall (λ p, inherited (Participant.roomToken p) = false) response →
   ∃ groups,
     reduce Store.splitParticipant ∅ response = inr groups ∧
     ∀ roomToken group,
       groups !! roomToken = Some group ↔
       group ≠ [] ∧ group = participants_of roomToken response) ∧
  (Exists (λ p, inherited (Participant.roomToken p) = true) response →
   reduce Store.splitParticipant ∅ response =
   inl (TypeError "acc[participant.roomToken].push is not a function")).
Proof. split; [apply grouping_lookup | apply grouping_throws]. Qed.

Lemma participants_are_grouped_by_room_witness :
  (∃ groups, reduce Store.splitParticipant ∅ Sample.crowd = inr groups ∧
     ∀ roomToken group,
       groups !! roomToken = Some group ↔
       group ≠ [] ∧ group = participants_of roomToken Sample.crowd) ∧
  reduce Store.splitParticipant ∅ Sample.stray =
    inl (TypeError "acc[participant.roomToken].push is not a function").
Proof.
  destruct (participants_are_grouped_by_room Sample.crowd) as [Hgroups _].
  destruct (participants_are_grouped_by_room Sample.stray) as [_ Hthrows].
  split.
  - apply Hgroups. by repeat constructor.
  - apply Hthrows. apply Exists_cons_tl, Exists_cons_hd. reflexivity.
Defined.

Section Fetching.
Variable env : Env.

Lemma fetchBreakoutRoomsParticipants_resolved (token : string) (w : World)
    (response : list Participant.t) :
  (Service.getBreakoutRoomsParticipants env token w).1 = Returned response →
  Store.fetchBreakoutRoomsParticipants env token w =
  (Returned tt,
   {| store := store w;
      trace := trace (Service.getBreakoutRoomsParticipants env token w).2 ++
        match reduce Store.splitParticipant ∅ response with
        | inl e => [ConsoleError e]
        | inr groups =>
            (λ entry, Dispatch (patchParticipants entry.1 entry.2 false)) <$>
            map_to_list groups
        end |}).
Proof.
  intros H. unfold Store.fetchBreakoutRoomsParticipants.
  rewrite (run_action_resolved _ _ _ _ _ H).
  assert (Hst : store (Service.getBreakoutRoomsParticipants env token w).2 = store w)
    by exact (f_equal store (send_world _ _ _ w)).
  destruct (reduce Store.splitParticipant ∅ response) as [e|groups].
  - erewrite run_try_thrown; [|reflexivity].
    unfold console_error. rewrite run_perform. by rewrite Hst.
  - erewrite run_try_returned; [reflexivity|].
    erewrite run_bind_returned; [|reflexivity].
    rewrite (forEach_ext _ (λ entry, dispatch (patchParticipants entry.1 entry.2 false)))
      by (by intros [roomToken newParticipants]).
    rewrite (forEach_dispatch (λ entry, patchParticipants entry.1 entry.2 false)).
    by rewrite Hst.
Qed.

(** X2. When the participants request resolves, [fetchBreakoutRoomsParticipants]
    returns normally and leaves the rooms alone.  If no room token of the
    response is the name of a member inherited from [Object.prototype], it then
    does nothing but dispatch [patchParticipants]: one dispatch per room token
    that occurs in the response, never two for the same room, each carrying
    exactly that room's participants and [hasUserStatuses: false].  If some room
    token is such a name, it dispatches nothing and logs the [TypeError]. *)
Theorem fetched_participants_are_dispatched_per_room (token : string) (w : World)
    (response : list Participant.t) :
  (Service.getBreakoutRoomsParticipants env token w).1 = Returned response →
  (Store.fetchBreakoutRoomsParticipants env token w).1 = Returned tt ∧
  store (Store.fetchBreakoutRoomsParticipants env token w).2 = store w ∧
  (Forall (λ p, inherited (Participant.roomToken p) = false) response →
   ∃ groups : list (string * list Participant.t),
     effects_since (Service.getBreakoutRoomsParticipants env token w).2
       (Store.fetchBreakoutRoomsParticipants env token w).2 =
       ((λ group, Dispatch (patchParticipants group.1 group.2 false)) <$> groups) ∧
     NoDup groups.*1 ∧
     ∀ roomToken newParticipants,
       (roomToken, newParticipants) ∈ groups ↔
       newParticipants ≠ [] ∧ newParticipants = participants_of roomToken response) ∧
  (Exists (λ p, inherited (Participant.roomToken p) = true) response →
   effects_since (Service.getBreakoutRoomsParticipants env token w).2
     (Store.fetchBreakoutRoomsParticipants env token w).2 =
   [ConsoleError (TypeError "acc[participant.roomToken].push is not a function")]).
Proof.
  intros H. rewrite (fetchBreakoutRoomsParticipants_resolved token w response H). simpl.
  split; [done|]. split; [done|]. split.
  - intros Hall. destruct (grouping_lookup response Hall) as (groups & -> & Hgroups).
    exists (map_to_list groups).
    split; [by apply effects_since_app|]. split; [apply NoDup_fst_map_to_list|].
    intros roomToken newParticipants.
    rewrite elem_of_map_to_list. apply Hgroups.
  - intros Hex. rewrite (grouping_throws response Hex). by apply effects_since_app.
Qed.
End Fetching.

Lemma fetched_participants_are_dispatched_per_room_witness :
  store (Store.fetchBreakoutRoomsParticipants
           (Sample.env (Sample.up Sample.mixed (Sample.group "T") Sample.crowd))
           "T" Sample.stale).2 = store Sample.stale ∧
  effects_since
    (Service.getBreakoutRoomsParticipants
       (Sample.env (Sample.up Sample.mixed (Sample.group "T") Sample.stray)) "T" Sample.stale).2
    (Store.fetchBreakoutRoomsParticipants
       (Sample.env (Sample.up Sample.mixed (Sample.group "T") Sample.stray)) "T" Sample.stale).2 =
  [ConsoleError (TypeError "acc[participant.roomToken].push is not a function")].
Proof.
  split.
  - apply (fetched_participants_are_dispatched_per_room
             (Sample.env (Sample.up Sample.mixed (Sample.group "T") Sample.crowd))
             "T" Sample.stale Sample.crowd).
    reflexivity.
  - apply (fetched_participants_are_dispatched_per_room
             (Sample.env (Sample.up Sample.mixed (Sample.group "T") Sample.stray))
             "T" Sample.stale Sample.stray).
    + reflexivity.
    + apply Exists_cons_tl, Exists_cons_hd. reflexivity.
Defined.

(** ** Computations that return without a toast *)

Section Steady.
Context {A B : Type}.

Lemma steady_ret (a : A) : steady no_requests (mret (M := M) a).
Proof.
  intros w. exists a, (store w), []. rewrite app_nil_r. by destruct w.
Qed.

Lemma steady_bind_l (R : list Request → Prop) (m : M A) (f : A → M B) :
  steady no_requests m → (∀ a, steady R (f a)) → steady R (m ≫= f).
Proof.
  intros Hm Hf w. destruct (Hm w) as (a & s & eff & Heq & Ht & Hn).
  destruct (Hf a {| store := s; trace := trace w ++ eff |})
    as (b & s' & eff' & Heq' & Ht' & Hn').
  exists b, s', (eff ++ eff').
  erewrite run_bind_returned; [|exact Heq]. rewrite Heq'. simpl.
  rewrite <- app_assoc, toasts_in_app, requests_in_app, Ht, Ht', Hn.
  done.
Qed.

Lemma steady_bind_r (R : list Request → Prop) (m : M A) (f : A → M B) :
  steady R m → (∀ a, steady no_requests (f a)) → steady R (m ≫= f).
Proof.
  intros Hm Hf w. destruct (Hm w) as (a & s & eff & Heq & Ht & Hn).
  destruct (Hf a {| store := s; trace := trace w ++ eff |})
    as (b & s' & eff' & Heq' & Ht' & Hn').
  exists b, s', (eff ++ eff').
  erewrite run_bind_returned; [|exact Heq]. rewrite Heq'. simpl.
  rewrite <- app_assoc, toasts_in_app, requests_in_app, Ht, Ht', Hn'.
  by rewrite (app_nil_r (requests_in eff)).
Qed.

(** The body that follows a resolved service call, when steady, brings the
    action to a normal end. *)
Lemma steady_after_service (R : list Request → Prop) (service : M A) (k : A → M unit)
    (handler : JsError → M unit) (w : World) (response : A) :
  steady R (k response) →
  (service w).1 = Returned response →
  ∃ s effects,
    try_catch (service ≫= k) handler w =
      (Returned tt, {| store := s; trace := trace (service w).2 ++ effects |}) ∧
    toasts_in effects = [] ∧ R (requests_in effects).
Proof.
  intros Hk H. rewrite (run_action_resolved _ _ _ _ _ H).
  destruct (Hk (service w).2) as ([] & s & eff & Heq & Ht & Hn).
  exists s, eff. by erewrite run_try_returned.
Qed.
End Steady.

Lemma steady_perform (e : Effect) :
  toasts_in [e] = [] → requests_in [e] = [] → steady no_requests (perform e).
Proof.
  intros Ht Hr w. exists tt, (store w), [e]. by rewrite Ht, Hr.
Qed.

Section Steady_store.
Variable env : Env.

Lemma steady_addBreakoutRoom (token : string) (breakoutRoom : BreakoutRoom) :
  steady no_requests (Store.addBreakoutRoom token breakoutRoom).
Proof.
  intros w. rewrite addBreakoutRoom_run. eexists tt, _, []. by rewrite app_nil_r.
Qed.

Lemma steady_processConversations (token : string) (data : ConversationOrArray) :
  steady no_requests (Store.processConversations env token data).
Proof. intros w. rewrite processConversations_run. by eexists tt, _, _. Qed.

Lemma steady_purgeBreakoutRoomsStore (token : string) :
  steady no_requests (Store.purgeBreakoutRoomsStore token).
Proof.
  intros w. rewrite purgeBreakoutRoomsStore_run. eexists tt, _, _.
  split; [reflexivity|].
  by rewrite toasts_in_dispatches, requests_in_dispatches.
Qed.

(** After its request, the participants fetch shows no toast and sends
    nothing more, however the request and the grouping end. *)
Lemma fetchBreakoutRoomsParticipants_after_request (token : string) (w : World) :
  ∃ effects,
    Store.fetchBreakoutRoomsParticipants env token w =
      (Returned tt,
       {| store := store w;
          trace := trace (Service.getBreakoutRoomsParticipants env token w).2 ++ effects |}) ∧
    toasts_in effects = [] ∧ requests_in effects = [].
Proof.
  destruct (Service.getBreakoutRoomsParticipants env token w).1 as [response|e] eqn:E.
  - rewrite (fetchBreakoutRoomsParticipants_resolved env token w response E).
    eexists. split; [reflexivity|].
    destruct (reduce Store.splitParticipant ∅ response) as [e|groups]; [done|].
    rewrite (toasts_in_dispatches (λ entry, patchParticipants entry.1 entry.2 false)).
    by rewrite (requests_in_dispatches (λ entry, patchParticipants entry.1 entry.2 false)).
  - pose proof (run_when_service_rejects env (Action.FetchBreakoutRoomsParticipants token)
                  (Call.GetBreakoutRoomsParticipants token) w e eq_refl E) as Hr.
    unfold Action.run, Call.run, Call.data, Action.toast in Hr. rewrite Hr.
    by eexists.
Qed.

Lemma steady_fetchBreakoutRoomsParticipants (token : string) :
  steady (one_participants_call env token) (Store.fetchBreakoutRoomsParticipants env token).
Proof.
  intros w.
  destruct (fetchBreakoutRoomsParticipants_after_request token w) as (eff & Heq & Ht & Hr).
  pose proof (f_equal trace
                (send_world (resends env) (participants (server env))
                   {| method := GET;
                      url := generateOcsUrl env
                        "/apps/spreed/api/v4/room/{token}/breakout-rooms/participants" token;
                      body := None |} w)) as Htr.
  change (send _ _ _ w) with (Service.getBreakoutRoomsParticipants env token w) in Htr.
  simpl in Htr.
  match type of Htr with
  | _ = _ ++ ?sent => exists tt, (store w), (sent ++ eff)
  end.
  rewrite Heq, Htr, <- app_assoc. split; [reflexivity|].
  rewrite toasts_in_app, requests_in_app, Ht, Hr, !app_nil_r. split.
  - apply (toasts_in_requests (_ :: _)).
  - exists w. by rewrite (effects_since_app _ _ _ Htr).
Qed.
End Steady_store.

(** ** What an action sends and shows *)

Ltac steadily :=
  first
    [ apply steady_processConversations
    | apply steady_purgeBreakoutRoomsStore
    | apply steady_fetchBreakoutRoomsParticipants
    | apply steady_ret
    | apply steady_perform; reflexivity
    | apply steady_bind_l; [steadily | intros ?; steadily]
    | apply steady_bind_r; [steadily | intros ?; steadily] ].

Section Effects.
Variable env : Env.

Lemma call_world (c : Call.t) (w : World) :
  ∃ sent : list Request,
    (Call.run env c w).2 = {| store := store w; trace := trace w ++ (Http <$> sent) |}.
Proof.
  destruct c; eexists (_ :: _); apply send_world.
Qed.

(** How every asynchronous action ends when its service call resolves: it
    returns, shows no toast, and calls the client once more only where it goes
    on to fetch the participants. *)
Lemma run_when_service_resolves (a : Action.t) (c : Call.t) (w : World)
    (response : Call.data c) :
  Action.service a = Some c →
  (Call.run env c w).1 = Returned response →
  ∃ s effects,
    Action.run env a w =
      (Returned tt, {| store := s; trace := trace (Call.run env c w).2 ++ effects |}) ∧
    toasts_in effects = [] ∧
    if fetches_participants_after a
    then ∃ token, one_participants_call env token (requests_in effects)
    else requests_in effects = [].
Proof.
  intros Hs H.
  destruct a; simpl in Hs; try discriminate; injection Hs as <-; simpl in *.
  1, 2: unfold Store.configureBreakoutRooms, Store.reorganizeAttendees;
    match goal with
    | |- ∃ s effects, try_catch (?service ≫= ?k) ?handler ?w0 = _ ∧ _ =>
        destruct (steady_after_service (one_participants_call env token)
                    service k handler w0 response ltac:(steadily) H)
          as (s & eff & Heq & Ht & Hr)
    end;
    exists s, eff; eauto.
  all: try (eapply (steady_after_service no_requests); [steadily | exact H]).
  destruct (fetchBreakoutRoomsParticipants_after_request env token w)
    as (eff & Heq & Ht & Hr).
  by exists (store w), eff.
Qed.

(** The toasts and the requests of any action, in every case. *)
Lemma action_effects (a : Action.t) (w : World) :
  ∃ effects,
    trace (Action.run env a w).2 = trace w ++ effects ∧
    toasts_in effects =
      match Action.service a with
      | None => []
      | Some c =>
          match (Call.run env c w).1, Action.toast a with
          | Thrown _, Some text => [t env "spreed" text]
          | _, _ => []
          end
      end ∧
    match Action.service a with
    | None => requests_in effects = []
    | Some c =>
        ∃ more,
          requests_in effects =
            requests_in (effects_since w (Call.run env c w).2) ++ more ∧
          match (Call.run env c w).1 with
          | Returned _ =>
              if fetches_participants_after a
              then ∃ token, one_participants_call env token more
              else more = []
          | Thrown _ => more = []
          end
    end.
Proof.
  destruct (Action.service a) as [c|] eqn:Hs.
  - destruct (call_world c w) as [sent Hw1].
    assert (Hown : requests_in (effects_since w (Call.run env c w).2) = sent).
    { rewrite (effects_since_app w _ (Http <$> sent)) by (by rewrite Hw1).
      apply requests_in_requests. }
    rewrite Hown. clear Hown.
    destruct (Call.run env c w).1 as [response|e] eqn:E.
    + destruct (run_when_service_resolves a c w response Hs E) as (s & eff & -> & Ht & Hn).
      simpl. rewrite Hw1. simpl. exists ((Http <$> sent) ++ eff).
      rewrite <- app_assoc. split; [done|].
      rewrite toasts_in_app, requests_in_app, Ht, toasts_in_requests, requests_in_requests.
      split; [by destruct (Action.toast a)|].
      by exists (requests_in eff).
    + rewrite (run_when_service_rejects env a c w e Hs E). simpl. rewrite Hw1. simpl.
      eexists. rewrite <- app_assoc. split; [reflexivity|].
      rewrite toasts_in_app, requests_in_app, toasts_in_requests, requests_in_requests.
      split; [by destruct (Action.toast a)|].
      eexists. split; [reflexivity|]. by destruct (Action.toast a).
  - destruct a; try discriminate; simpl.
    + rewrite processConversations_run. simpl. by eexists.
    + rewrite purgeBreakoutRoomsStore_run. simpl. eexists. split; [reflexivity|].
      by rewrite toasts_in_dispatches, requests_in_dispatches.
    + rewrite addBreakoutRoom_run. simpl. exists []. by rewrite app_nil_r.
Qed.

(** X3. No action calls the client more than twice and none repeats a call:
    the three synchronous actions put nothing on the wire; an asynchronous
    action puts there what its own service call sends, and
    [configureBreakoutRooms] and [reorganizeAttendees] add what one call of the
    participants service sends, exactly when their own call has resolved.
    With a client that sends each call as it is, that is none, one or two
    requests. *)
Theorem requests_per_action (a : Action.t) (w : World) :
  match Action.service a with
  | None => requests_in (effects_since w (Action.run env a w).2) = []
  | Some c =>
      ∃ more,
        requests_in (effects_since w (Action.run env a w).2) =
          requests_in (effects_since w (Call.run env c w).2) ++ more ∧
        match (Call.run env c w).1 with
        | Returned _ =>
            if fetches_participants_after a
            then ∃ token, one_participants_call env token more
            else more = []
        | Thrown _ => more = []
        end
  end ∧
  ((∀ h r, resends env h r = []) →
   length (requests_in (effects_since w (Action.run env a w).2)) =
   match Action.service a with
   | None => 0
   | Some c =>
       match (Call.run env c w).1 with
       | Returned _ => if fetches_participants_after a then 2 else 1
       | Thrown _ => 1
       end
   end).
Proof.
  destruct (action_effects a w) as (eff & Htr & _ & Hn).
  rewrite (effects_since_app _ _ _ Htr). split; [exact Hn|].
  intros Hplain.
  assert (Hcall : ∀ c' w', length (requests_in (effects_since w' (Call.run env c' w').2)) = 1).
  { intros c' w'.
    assert (Hw' : ∃ r, trace (Call.run env c' w').2 = trace w' ++ [Http r]).
    { destruct c'; eexists; unfold Call.run;
        match goal with
        | |- trace (?f w').2 = _ =>
            etransitivity; [exact (f_equal trace (send_world _ _ _ w'))|]
        end; simpl; by rewrite Hplain. }
    destruct Hw' as [r Hw']. by rewrite (effects_since_app _ _ _ Hw'). }
  destruct (Action.service a) as [c|]; [|by rewrite Hn].
  destruct Hn as (more & -> & Hmore). rewrite length_app, Hcall.
  destruct (Call.run env c w).1; [|by subst more].
  destruct (fetches_participants_after a); [|by subst more].
  destruct Hmore as (token & w2 & ->).
  pose proof (Hcall (Call.GetBreakoutRoomsParticipants token) w2) as H2.
  unfold Call.run, Call.data in H2. by rewrite H2.
Qed.

(** X4. An action shows at most one toast, and only for the failure of its own
    service call: nothing is shown when that call resolves (even if the
    participants fetch that follows fails), nothing by the synchronous actions,
    and nothing by the two actions without a message. *)
Theorem toasts_per_action (a : Action.t) (w : World) :
  toasts_in (effects_since w (Action.run env a w).2) =
  match Action.service a with
  | None => []
  | Some c =>
      match (Call.run env c w).1, Action.toast a with
      | Thrown _, Some text => [t env "spreed" text]
      | _, _ => []
      end
  end.
Proof.
  destruct (action_effects a w) as (eff & Htr & Ht & _).
  by rewrite (effects_since_app _ _ _ Htr).
Qed.
End Effects.

Lemma requests_per_action_witness :
  length (requests_in (effects_since Sample.fresh
    (Action.run (Sample.env (Sample.up Sample.pair (Sample.group "T") Sample.crowd))
       (Action.ConfigureBreakoutRooms "T" 1 2 None) Sample.fresh).2)) = 2.
Proof.
  apply (requests_per_action (Sample.env (Sample.up Sample.pair (Sample.group "T") Sample.crowd))
           (Action.ConfigureBreakoutRooms "T" 1 2 None) Sample.fresh).
  reflexivity.
Defined.

(** ** Merging, again *)

(** The record of rooms after a run of assignments, in closed form. *)
Lemma foldl_upsert_closed (token : string) (l : list Conversation.t)
    (r : gmap string (gmap string Conversation.t)) :
  foldl (λ r c, upsert token c r) r l =
  match l with
  | [] => r
  | _ => <[token := by_token l ∪ default ∅ (r !! token)]> r
  end.
Proof.
  destruct l as [|c l]; [done|].
  apply map_eq. intros parent. destruct (decide (parent = token)) as [->|Hne].
  - rewrite lookup_insert_eq.
    destruct (foldl_upsert_is_Some token (c :: l) r) as [o Ho]; [done|].
    rewrite Ho. f_equal.
    by rewrite <- foldl_upsert_rooms_of, Ho.
  - rewrite lookup_insert_ne by done. by apply foldl_upsert_other.
Qed.

Lemma by_token_Permutation (l1 l2 : list Conversation.t) :
  NoDup (Conversation.token <$> l1) → l1 ≡ₚ l2 → by_token l1 = by_token l2.
Proof.
  intros Hnd Hp. unfold by_token. apply list_to_map_proper.
  - rewrite fmap_reverse, <- list_fmap_compose. by rewrite reverse_Permutation.
  - by rewrite !reverse_Permutation, Hp.
Qed.

Section Merging.
Variable env : Env.

(** X5. A response without a breakout-room-typed conversation (an empty
    array, or only the parent conversation) leaves the state exactly as it was:
    in particular no empty mapping is created for the parent token. *)
Theorem processConversations_without_rooms (token : string) (data : ConversationOrArray)
    (w : World) :
  breakout_rooms_in env data = [] →
  store (Store.processConversations env token data w).2 = store w.
Proof.
  intros H. rewrite processConversations_run. simpl. rewrite H. simpl.
  by destruct (store w).
Qed.

(** X6. Merging the same response twice is the same as merging it once. *)
Theorem processConversations_idempotent (token : string) (data : ConversationOrArray)
    (w : World) :
  store (Store.processConversations env token data
           (Store.processConversations env token data w).2).2 =
  store (Store.processConversations env token data w).2.
Proof.
  rewrite !processConversations_run. simpl. f_equal.
  rewrite !foldl_upsert_closed.
  destruct (breakout_rooms_in env data) as [|c l]; [done|].
  rewrite lookup_insert_eq, insert_insert_eq. simpl.
  by rewrite (assoc_L (∪)), (idemp_L (∪)).
Qed.

(** X7. When the breakout rooms of a response have pairwise distinct tokens,
    the order in which the response lists its conversations does not matter for
    what is stored: afterwards the same room is found under every parent and
    token, and the getter lists the same rooms for every parent, up to their
    order in the list. *)
Theorem processConversations_order_irrelevant (token : string)
    (data1 data2 : ConversationOrArray) (w : World) :
  to_array data1 ≡ₚ to_array data2 →
  NoDup (Conversation.token <$> breakout_rooms_in env data1) →
  (∀ parent key,
     rooms_of (store (Store.processConversations env token data1 w).2) parent !! key =
     rooms_of (store (Store.processConversations env token data2 w).2) parent !! key) ∧
  (∀ parent,
     Store.breakoutRooms (store (Store.processConversations env token data1 w).2) parent ≡ₚ
     Store.breakoutRooms (store (Store.processConversations env token data2 w).2) parent).
Proof.
  intros Hp Hnd.
  assert (Heq : store (Store.processConversations env token data1 w).2 =
                store (Store.processConversations env token data2 w).2).
  { rewrite !processConversations_run. simpl. f_equal.
    rewrite !foldl_upsert_closed.
    assert (Hb : breakout_rooms_in env data1 ≡ₚ breakout_rooms_in env data2)
      by (unfold breakout_rooms_in; by rewrite Hp).
    rewrite <- (by_token_Permutation _ _ Hnd Hb).
    destruct (breakout_rooms_in env data1) as [|c1 l1];
      destruct (breakout_rooms_in env data2) as [|c2 l2]; try done.
    - by apply Permutation_nil_cons in Hb.
    - symmetry in Hb. by apply Permutation_nil_cons in Hb. }
  rewrite Heq. by split.
Qed.

End Merging.

(** ** Adding and purging *)



Lemma rooms_of_upsert (token : string) (breakoutRoom : BreakoutRoom)
    (r : gmap string (gmap string Conversation.t)) (parent key : string) :
  rooms_of {| rooms := upsert token breakoutRoom r |} parent !! key =
  if decide (parent = token ∧ key = Conversation.token breakoutRoom)
  then Some breakoutRoom
  else rooms_of {| rooms := r |} parent !! key.
Proof.
  unfold rooms_of, upsert. simpl.
  destruct (decide (parent = token)) as [->|Hp].
  - rewrite lookup_insert_eq. simpl.
    destruct (decide (key = Conversation.token breakoutRoom)) as [->|Hk].
    + rewrite lookup_insert_eq. by rewrite decide_True.
    + rewrite lookup_insert_ne by done. rewrite decide_False; [done|]. by intros [_ ?].
  - rewrite lookup_insert_ne by done. rewrite decide_False; [done|]. by intros [? _].
Qed.







(** ** Parents are independent *)

Section Other_parent.
Variables (other : string) (v : option (gmap string Conversation.t)).

Lemma preserves_other_addBreakoutRoom (token : string) (breakoutRoom : BreakoutRoom) :
  other ≠ token →
  preserves (λ s, rooms s !! other = v) (Store.addBreakoutRoom token breakoutRoom).
Proof.
  intros Hne w H. rewrite addBreakoutRoom_run. simpl.
  unfold upsert. by rewrite lookup_insert_ne.
Qed.

Lemma preserves_other_purgeBreakoutRoomsStore (token : string) :
  other ≠ token →
  preserves (λ s, rooms s !! other = v) (Store.purgeBreakoutRoomsStore token).
Proof.
  intros Hne w H. rewrite purgeBreakoutRoomsStore_run. simpl.
  by rewrite lookup_delete_ne.
Qed.

Lemma preserves_other_processConversations (env : Env) (token : string)
    (data : ConversationOrArray) :
  other ≠ token →
  preserves (λ s, rooms s !! other = v) (Store.processConversations env token data).
Proof.
  intros Hne w H. rewrite processConversations_run. simpl.
  by rewrite foldl_upsert_other.
Qed.
End Other_parent.

#[local] Hint Resolve preserves_other_addBreakoutRoom preserves_other_purgeBreakoutRoomsStore
  preserves_other_processConversations : preserves.

(** X13. An action that is given a parent token writes under that parent only:
    whatever the server answers, the mapping of every other parent is the same
    after the action as before. *)
Theorem other_parents_untouched (env : Env) (a : Action.t) (token other : string) (w : World) :
  parent_written a = Some token →
  other ≠ token →
  rooms (store (Action.run env a w).2) !! other = rooms (store w) !! other.
Proof.
  intros Ha Hne.
  assert (H : preserves (λ s, rooms s !! other = rooms (store w) !! other) (Action.run env a)).
  { destruct a; simpl in Ha; try discriminate; injection Ha as ->; simpl; preserve. }
  by apply H.
Qed.

Lemma other_parents_untouched_witness :
  rooms (store (Action.run (Sample.env (Sample.up Sample.pair (Sample.group "U") []))
                  (Action.GetBreakoutRooms "U") Sample.stale).2) !! "T" =
  rooms (store Sample.stale) !! "T".
Proof.
  apply (other_parents_untouched
           (Sample.env (Sample.up Sample.pair (Sample.group "U") []))
           (Action.GetBreakoutRooms "U") "U" "T" Sample.stale); [reflexivity | done].
Defined.

(** ** Assistance, broadcast, sidebar *)

Section Rest.
Variable env : Env.

(** What both assistance actions do with the room the server returns. *)
Lemma assistance_run (service : M Conversation.t) (handler : JsError → M unit)
    (w : World) (response : Conversation.t) :
  (service w).1 = Returned response →
  try_catch
    (response ← service;
     let parentToken := Conversation.objectId response in
     Store.processConversations env parentToken (Single response))
    handler w =
  Store.processConversations env (Conversation.objectId response) (Single response)
    (service w).2.
Proof.
  intros H. rewrite (run_action_resolved _ _ _ _ _ H).
  erewrite run_try_returned; [|apply processConversations_run].
  by rewrite processConversations_run.
Qed.

Lemma filed_under_objectId (response : Conversation.t) (w w1 : World) :
  store w1 = store w →
  (Conversation.objectType response = BREAKOUT_ROOM env →
   rooms_of (store (Store.processConversations env (Conversation.objectId response)
                      (Single response) w1).2) (Conversation.objectId response)
     !! Conversation.token response = Some response) ∧
  (Conversation.objectType response ≠ BREAKOUT_ROOM env →
   store (Store.processConversations env (Conversation.objectId response)
            (Single response) w1).2 = store w) ∧
  (∀ other, other ≠ Conversation.objectId response →
   rooms (store (Store.processConversations env (Conversation.objectId response)
                   (Single response) w1).2) !! other = rooms (store w) !! other).
Proof.
  intros Hst. rewrite processConversations_run. simpl. rewrite Hst.
  unfold breakout_rooms_in, is_breakout_room. simpl. rewrite filter_cons, filter_nil.
  split; [|split].
  - intros Ht. rewrite decide_True by (by apply String.eqb_eq). simpl.
    rewrite rooms_of_upsert. by rewrite decide_True.
  - intros Ht. rewrite decide_False; [simpl; by destruct (store w)|].
    by rewrite String.eqb_eq.
  - intros other Hne. by rewrite foldl_upsert_other.
Qed.

(** X14. When the request resolves, [requestAssistance] and
    [dismissRequestAssistance] file the returned room under the parent named by
    its [objectId], not under the token they were called with: a room with the
    breakout-room tag is then found there under its own token, a conversation of
    another type changes nothing, and no other parent is touched. *)
Theorem assistance_files_under_objectId (dismiss : bool) (token : string) (w : World)
    (response : Conversation.t) :
  ((if dismiss then Service.resetRequestAssistance env token
    else Service.requestAssistance env token) w).1 = Returned response →
  (Conversation.objectType response = BREAKOUT_ROOM env →
   rooms_of (store ((if dismiss then Store.dismissRequestAssistance env token
                     else Store.requestAssistance env token) w).2)
     (Conversation.objectId response) !! Conversation.token response = Some response) ∧
  (Conversation.objectType response ≠ BREAKOUT_ROOM env →
   store ((if dismiss then Store.dismissRequestAssistance env token
           else Store.requestAssistance env token) w).2 = store w) ∧
  (∀ other, other ≠ Conversation.objectId response →
   rooms (store ((if dismiss then Store.dismissRequestAssistance env token
                  else Store.requestAssistance env token) w).2) !! other =
   rooms (store w) !! other).
Proof.
  destruct dismiss; intros H;
    [unfold Store.dismissRequestAssistance | unfold Store.requestAssistance];
    rewrite (assistance_run _ _ _ _ H);
    apply filed_under_objectId; exact (f_equal store (send_world _ _ _ w)).
Qed.

(** X15. [broadcastMessageToBreakoutRooms] never writes to the rooms, and when
    its request resolves the request is all it does: the conversations the
    server returns are neither stored nor forwarded. *)
Theorem broadcast_only_sends (token message : string) (w : World) :
  store (Store.broadcastMessageToBreakoutRooms env token message w).2 = store w ∧
  ∀ response,
    (Service.broadcastMessageToBreakoutRooms env token message w).1 = Returned response →
    Store.broadcastMessageToBreakoutRooms env token message w =
      (Returned tt, (Service.broadcastMessageToBreakoutRooms env token message w).2).
Proof.
  split.
  - assert (H : preserves (λ s, s = store w)
                  (Store.broadcastMessageToBreakoutRooms env token message))
      by (unfold Store.broadcastMessageToBreakoutRooms; preserve).
    by apply H.
  - intros response H. unfold Store.broadcastMessageToBreakoutRooms.
    rewrite (run_action_resolved _ _ _ _ _ H). reflexivity.
Qed.

Lemma configure_continuation_trace (token : string) (response : ConversationOrArray)
    (w : World) :
  ∃ s effects,
    (Store.processConversations env token response ;;
     Store.fetchBreakoutRoomsParticipants env token ;;
     emit "spreed:select-active-sidebar-tab" "breakout-rooms" ;;
     dispatch showSidebar) w =
    (Returned tt,
     {| store := s;
        trace := trace w ++ effects ++
          [Emit "spreed:select-active-sidebar-tab" "breakout-rooms";
           Dispatch showSidebar] |}).
Proof.
  rewrite (run_bind_returned _ _ _ _ _ (processConversations_run env token response w)).
  match goal with
  | |- ∃ _ _, (_ ≫= _) ?w2 = _ =>
      destruct (fetchBreakoutRoomsParticipants_run env token w2) as [eff Hf]
  end.
  rewrite (run_bind_returned _ _ _ _ _ Hf). simpl.
  eexists _, ([Dispatch (patchConversations (to_array response))] ++ eff).
  unfold mbind, M_bind, emit, dispatch, perform. simpl.
  by rewrite <- !app_assoc.
Qed.

Lemma configure_trace_resolved (token : string) (mode amount : Z)
    (attendeeMap : option string) (w : World) (response : ConversationOrArray) :
  (Service.configureBreakoutRooms env token mode amount attendeeMap w).1 = Returned response →
  ∃ effects,
    trace (Store.configureBreakoutRooms env token mode amount attendeeMap w).2 =
    trace w ++ effects ++
      [Emit "spreed:select-active-sidebar-tab" "breakout-rooms"; Dispatch showSidebar].
Proof.
  intros H. unfold Store.configureBreakoutRooms.
  rewrite (run_action_resolved _ _ _ _ _ H).
  assert (Hw1 : (Service.configureBreakoutRooms env token mode amount attendeeMap w).2 =
                {| store := store w; trace := trace w ++ Http _ :: (Http <$> _) |})
    by apply send_world.
  rewrite Hw1. clear Hw1 H.
  match goal with
  | |- context [try_catch _ _ ?w1] =>
      destruct (configure_continuation_trace token response w1) as (s & eff & Hk)
  end.
  rewrite (run_try_returned _ _ _ _ _ Hk). simpl.
  match goal with
  | |- ∃ _, (_ ++ ?sent) ++ _ = _ => exists (sent ++ eff)
  end.
  by rewrite <- !app_assoc.
Qed.

(** X16. [configureBreakoutRooms] opens the sidebar exactly when its own request
    resolved: then selecting the breakout-rooms tab and [showSidebar] are the
    last two effects, also when the participants could not be fetched; when the
    request failed, nothing is emitted and the sidebar is not opened. *)
Theorem sidebar_opens_when_configured (token : string) (mode amount : Z)
    (attendeeMap : option string) (w : World) :
  (∀ response,
     (Service.configureBreakoutRooms env token mode amount attendeeMap w).1 =
       Returned response →
     ∃ effects,
       effects_since w (Store.configureBreakoutRooms env token mode amount attendeeMap w).2 =
       effects ++
         [Emit "spreed:select-active-sidebar-tab" "breakout-rooms"; Dispatch showSidebar]) ∧
  (∀ e,
     (Service.configureBreakoutRooms env token mode amount attendeeMap w).1 = Thrown e →
     (Dispatch showSidebar ∉
        effects_since w (Store.configureBreakoutRooms env token mode amount attendeeMap w).2) ∧
     (∀ event payload,
        Emit event payload ∉
          effects_since w (Store.configureBreakoutRooms env token mode amount attendeeMap w).2)).
Proof.
  split.
  - intros response H. destruct (configure_trace_resolved _ _ _ _ _ _ H) as [eff Heq].
    exists eff. by apply effects_since_app.
  - intros e H.
    pose proof (run_when_service_rejects env
                  (Action.ConfigureBreakoutRooms token mode amount attendeeMap)
                  (Call.ConfigureBreakoutRooms token mode amount attendeeMap) w e eq_refl H)
      as Hr.
    unfold Action.run, Call.run, Call.data, Action.toast in Hr. rewrite Hr. simpl.
    assert (Hw1 : (Service.configureBreakoutRooms env token mode amount attendeeMap w).2 =
                  {| store := store w; trace := trace w ++ Http _ :: (Http <$> _) |})
    by apply send_world.
    rewrite Hw1. simpl.
    erewrite effects_since_app; [|simpl; rewrite <- app_assoc; reflexivity]. simpl.
    split; [|intros event payload];
      rewrite elem_of_cons, elem_of_app, list_elem_of_fmap, !elem_of_cons, elem_of_nil;
      intros [?|[(? & ? & _)|[?|[?|[]]]]]; discriminate.
Qed.
End Rest.

Lemma processConversations_without_rooms_witness :
  store (Store.processConversations (Sample.env Sample.down) "U"
           (Single (Sample.group "U")) Sample.stale).2 = store Sample.stale.
Proof.
  apply (processConversations_without_rooms (Sample.env Sample.down) "U"
           (Single (Sample.group "U")) Sample.stale).
  reflexivity.
Defined.

Lemma processConversations_order_irrelevant_witness :
  Store.breakoutRooms
    (store (Store.processConversations (Sample.env Sample.down) "T" Sample.pair
              Sample.stale).2) "T" ≡ₚ
  Store.breakoutRooms
    (store (Store.processConversations (Sample.env Sample.down) "T" Sample.riap
              Sample.stale).2) "T".
Proof.
  apply (processConversations_order_irrelevant (Sample.env Sample.down) "T"
           Sample.pair Sample.riap Sample.stale).
  - apply (reverse_Permutation [Sample.room "b" "T"; Sample.group "T"; Sample.room "a" "T"]).
  - compute_done.
Defined.


Lemma assistance_files_under_objectId_witness :
  rooms_of (store (Store.requestAssistance
                     (Sample.env (Sample.up Sample.mixed (Sample.room "a" "T") []))
                     "a" Sample.fresh).2) "T" !! "a" = Some (Sample.room "a" "T").
Proof.
  apply (assistance_files_under_objectId
           (Sample.env (Sample.up Sample.mixed (Sample.room "a" "T") []))
           false "a" Sample.fresh (Sample.room "a" "T")); reflexivity.
Defined.

Lemma broadcast_only_sends_witness :
  Store.broadcastMessageToBreakoutRooms
    (Sample.env (Sample.up Sample.pair (Sample.group "T") [])) "T" "hello" Sample.stale =
  (Returned tt,
   (Service.broadcastMessageToBreakoutRooms
      (Sample.env (Sample.up Sample.pair (Sample.group "T") [])) "T" "hello" Sample.stale).2).
Proof.
  apply (broadcast_only_sends (Sample.env (Sample.up Sample.pair (Sample.group "T") []))
           "T" "hello" Sample.stale) with (response := Sample.pair).
  reflexivity.
Defined.

Lemma sidebar_opens_when_configured_witness :
  Dispatch showSidebar ∉
    effects_since Sample.fresh
      (Store.configureBreakoutRooms (Sample.env Sample.down) "T" 1 2 None Sample.fresh).2.
Proof.
  apply (sidebar_opens_when_configured (Sample.env Sample.down) "T" 1 2 None Sample.fresh)
    with (e := NetworkError "Network Error").
  reflexivity.
Defined.
